(** * ldapserver: the accept loop and the shutdown of [server.go]

    A shallow embedding of [Server] (server.go): the registration of the
    handler, the accept loop [serve], [newClient] and [Stop], as a labelled
    transition system in which the goroutine inside [Serve], the calls of
    [Stop] and the per-client goroutines interleave statement by statement.
    The environment (what [Accept] yields, what [time.Now] reads, what
    [RemoteAddr] is) comes with the label of a step, so that every run can be
    replayed by evaluation.  [step] and [run] follow a server through its
    first serving; [life_step] and [life_run] through its whole lifetime,
    where it may be served again. *)

From stdpp Require Import base option list strings.
From Stdlib Require Import ZArith Lia.

Local Open Scope Z_scope.

(** ** Go primitives *)

(** Go's [int] on the 64-bit platforms: two's complement, wrapping. *)
Definition int_bits : Z := 64.
Definition int_max : Z := 2 ^ (int_bits - 1) - 1.
Definition wrap_int (z : Z) : Z :=
  (z + 2 ^ (int_bits - 1)) mod 2 ^ int_bits - 2 ^ (int_bits - 1).
Definition int_add (a b : Z) : Z := wrap_int (a + b).

(** [time.Duration] is an [int64] count of nanoseconds. *)
Definition Duration : Type := Z.

(** The [error] values [serve] can meet: the one [net] yields on a closed
    listener ([net.ErrClosed], "use of closed network connection"), and any
    other. *)
Inductive error : Type :=
| ErrClosed
| ErrOther (msg : string).

(** The runtime panics of the statements of server.go. *)
Definition panic_multiple_handlers : string := "LDAP: multiple Handler registrations".
Definition panic_no_handler : string := "No LDAP Request Handler defined".
Definition panic_nil_listener : string := "invalid memory address or nil pointer dereference".
Definition panic_close_closed : string := "close of closed channel".
Definition panic_negative_wg : string := "sync: negative WaitGroup counter".
Definition panic_nil_addr : string := "invalid memory address or nil pointer dereference".

(** The counter of a [sync.WaitGroup] is an [int32]. *)
Definition wg_max : Z := 2 ^ 31 - 1.

Section Model.

(** The interface [Handler], [tls.Config] and [time.Time] are opaque to
    server.go; [time_Add] is [Time.Add]. *)
Context {HandlerI TLSConfigT Time : Type}.
Context (time_Add : Time -> Duration -> Time).

(** ** Data *)

(** A [net.Listener]: plain, or wrapped by [tls.NewListener]. *)
Inductive ListenerKind : Type :=
| PlainListener
| TLSListener (config : option TLSConfigT).

Record Listener : Type := mkListener {
  ln_kind : ListenerKind;
  ln_closed : bool
}.

(** A [net.Conn] as server.go uses it: the deadlines it was given (the
    arguments of the [SetReadDeadline] and [SetWriteDeadline] calls, oldest
    first) and whether it was closed.  A connection is named by its index in
    the order [Accept] returned them. *)
Record Conn : Type := mkConn {
  c_readDeadlines : list Time;
  c_writeDeadlines : list Time;
  c_closed : bool
}.

(** [client], as [newClient] fills it ([srv] points back to the one server;
    [br] and [bw] wrap [rwc]). *)
Record client : Type := mkClient {
  rwc : nat;
  br : nat;
  bw : nat;
  Numero : Z
}.

Record Server : Type := mkServer {
  Handler : option HandlerI;
  TLSConfig : option TLSConfigT;
  ReadTimeout : Duration;
  WriteTimeout : Duration;
  OnNewConnection : option (nat -> option error);
  listener : option Listener;
  wg : Z;            (* the counter of the sync.WaitGroup *)
  chDone : bool      (* true once the channel is closed *)
}.

(** [NewServer], line 32: every field but [chDone] has its zero value, and
    the channel is open. *)
Definition NewServer : Server :=
  {| Handler := None; TLSConfig := None; ReadTimeout := 0; WriteTimeout := 0;
     OnNewConnection := None; listener := None; wg := 0; chDone := false |}.

Definition set_Handler (h : option HandlerI) (s : Server) : Server :=
  {| Handler := h; TLSConfig := TLSConfig s; ReadTimeout := ReadTimeout s;
     WriteTimeout := WriteTimeout s; OnNewConnection := OnNewConnection s;
     listener := listener s; wg := wg s; chDone := chDone s |}.

Definition set_listener (l : option Listener) (s : Server) : Server :=
  {| Handler := Handler s; TLSConfig := TLSConfig s; ReadTimeout := ReadTimeout s;
     WriteTimeout := WriteTimeout s; OnNewConnection := OnNewConnection s;
     listener := l; wg := wg s; chDone := chDone s |}.

Definition set_wg (n : Z) (s : Server) : Server :=
  {| Handler := Handler s; TLSConfig := TLSConfig s; ReadTimeout := ReadTimeout s;
     WriteTimeout := WriteTimeout s; OnNewConnection := OnNewConnection s;
     listener := listener s; wg := n; chDone := chDone s |}.

Definition set_OnNewConnection (f : option (nat -> option error)) (s : Server) : Server :=
  {| Handler := Handler s; TLSConfig := TLSConfig s; ReadTimeout := ReadTimeout s;
     WriteTimeout := WriteTimeout s; OnNewConnection := f;
     listener := listener s; wg := wg s; chDone := chDone s |}.

Definition set_chDone (b : bool) (s : Server) : Server :=
  {| Handler := Handler s; TLSConfig := TLSConfig s; ReadTimeout := ReadTimeout s;
     WriteTimeout := WriteTimeout s; OnNewConnection := OnNewConnection s;
     listener := listener s; wg := wg s; chDone := b |}.

(** ** The statements of server.go on the server alone *)

(** [Handle], lines 40-45: the new handler, or the panic. *)
Definition Handle (h : option HandlerI) (s : Server) : Server + string :=
  match Handler s with
  | Some _ => inr panic_multiple_handlers
  | None => inl (set_Handler h s)
  end.

(** [Listener.Close]; closing again changes nothing. *)
Definition Close (l : Listener) : Listener :=
  {| ln_kind := ln_kind l; ln_closed := true |}.

(** [tls.NewListener(inner, config)], line 56. *)
Definition tls_NewListener (inner : Listener) (config : option TLSConfigT) : Listener :=
  {| ln_kind := TLSListener config; ln_closed := ln_closed inner |}.

(** [Listener.Accept]: on a closed listener it fails with [ErrClosed];
    otherwise the environment decides ([None]: a connection arrived). *)
Definition Accept (l : Listener) (arrival : option error) : option error :=
  if ln_closed l then Some ErrClosed else arrival.

(** [newClient], lines 105-113. *)
Definition newClient (s : Server) (rw : nat) : client * option error :=
  ({| rwc := rw; br := rw; bw := rw; Numero := 0 |}, None).

Definition set_Numero (n : Z) (c : client) : client :=
  {| rwc := rwc c; br := br c; bw := bw c; Numero := n |}.

Definition SetReadDeadline (t : Time) (c : Conn) : Conn :=
  {| c_readDeadlines := c_readDeadlines c ++ [t];
     c_writeDeadlines := c_writeDeadlines c; c_closed := c_closed c |}.

Definition SetWriteDeadline (t : Time) (c : Conn) : Conn :=
  {| c_readDeadlines := c_readDeadlines c;
     c_writeDeadlines := c_writeDeadlines c ++ [t]; c_closed := c_closed c |}.

Definition conn_Close (c : Conn) : Conn :=
  {| c_readDeadlines := c_readDeadlines c;
     c_writeDeadlines := c_writeDeadlines c; c_closed := true |}.

Definition new_conn : Conn :=
  {| c_readDeadlines := []; c_writeDeadlines := []; c_closed := false |}.

(** ** The goroutines *)

(** Where the goroutine inside [serve] stands; [i] is its local counter. *)
Inductive ServePc : Type :=
| AtSelect (i : Z)                 (* line 71 *)
| AtAccept (i : Z)                 (* line 78 *)
| AtNewConn (i : Z) (rw : nat)     (* lines 83-97, on the accepted rw *)
| AtWgAdd (i : Z) (cli : nat)      (* line 98 *)
| AtGo (i : Z) (cli : nat).        (* line 99 *)

Inductive Acceptor : Type :=
| NotStarted
| Serving (pc : ServePc)
| Returned (err : option error).

(** Where a call of [Stop] stands. *)
Inductive StopPc : Type :=
| AtClose       (* line 126 *)
| AtSignal      (* line 127 *)
| AtWait        (* line 129 *)
| StopReturned.

#[global] Instance StopPc_eq_dec : EqDecision StopPc.
Proof. solve_decision. Defined.

(** A goroutine started by [go cli.serve()]. *)
Record Worker : Type := mkWorker {
  w_cli : nat;
  w_done : bool
}.

Record State : Type := mkState {
  srv : Server;
  conns : list Conn;        (* the connections Accept returned, in order *)
  clients : list client;    (* the clients newClient built, in order *)
  workers : list Worker;    (* the goroutines started at line 99, in order *)
  acceptor : Acceptor;
  stoppers : list StopPc;   (* the calls of Stop, in order *)
  crashed : option string   (* the panic that ended the process *)
}.

Definition set_srv (x : Server) (st : State) : State :=
  {| srv := x; conns := conns st; clients := clients st; workers := workers st;
     acceptor := acceptor st; stoppers := stoppers st; crashed := crashed st |}.

Definition set_conns (x : list Conn) (st : State) : State :=
  {| srv := srv st; conns := x; clients := clients st; workers := workers st;
     acceptor := acceptor st; stoppers := stoppers st; crashed := crashed st |}.

Definition set_clients (x : list client) (st : State) : State :=
  {| srv := srv st; conns := conns st; clients := x; workers := workers st;
     acceptor := acceptor st; stoppers := stoppers st; crashed := crashed st |}.

Definition set_workers (x : list Worker) (st : State) : State :=
  {| srv := srv st; conns := conns st; clients := clients st; workers := x;
     acceptor := acceptor st; stoppers := stoppers st; crashed := crashed st |}.

Definition set_acceptor (x : Acceptor) (st : State) : State :=
  {| srv := srv st; conns := conns st; clients := clients st; workers := workers st;
     acceptor := x; stoppers := stoppers st; crashed := crashed st |}.

Definition set_stoppers (x : list StopPc) (st : State) : State :=
  {| srv := srv st; conns := conns st; clients := clients st; workers := workers st;
     acceptor := acceptor st; stoppers := x; crashed := crashed st |}.

(** The same state, with another hook. *)
Definition with_hook (f : option (nat -> option error)) (st : State) : State :=
  set_srv (set_OnNewConnection f (srv st)) st.

(** An unrecovered panic ends the process. *)
Definition panic (msg : string) (st : State) : State :=
  {| srv := srv st; conns := conns st; clients := clients st; workers := workers st;
     acceptor := acceptor st; stoppers := stoppers st; crashed := Some msg |}.

(** Sequencing: nothing runs after a panic. *)
Definition and_then (st : State) (k : State -> State) : State :=
  match crashed st with
  | Some _ => st
  | None => k st
  end.

Notation "st >> k" := (and_then st k) (at level 60, right associativity).

(** [s.listener.Close()]; on a nil listener the call panics. *)
Definition listener_Close (st : State) : State :=
  match listener (srv st) with
  | None => panic panic_nil_listener st
  | Some l => set_srv (set_listener (Some (Close l)) (srv st)) st
  end.

(** What the environment supplies to a step of [serve]: the outcome of the
    accept, the two readings of [time.Now] of lines 84 and 87, and what
    [RemoteAddr()] of the accepted connection is at line 97 ([None]: nil,
    the address is not known; else its [String()]). *)
Record Input : Type := mkInput {
  in_arrival : option error;
  in_now_read : Time;
  in_now_write : Time;
  in_remote : option string
}.

(** Lines 83-88 on the accepted connection: each deadline is set when its
    timeout is not zero, from a reading of [time.Now] of its own. *)
Definition set_deadlines (s : Server) (inp : Input) (rw : Conn) : Conn :=
  let rw1 :=
    if Z.eqb (ReadTimeout s) 0 then rw
    else SetReadDeadline (time_Add (in_now_read inp) (ReadTimeout s)) rw in
  if Z.eqb (WriteTimeout s) 0 then rw1
  else SetWriteDeadline (time_Add (in_now_write inp) (WriteTimeout s)) rw1.

(** Modelled from the spec: [Logger] is declared outside server.go.
    Following "a Handler must be registered; violating this is a fatal
    configuration error reported before any connection is accepted",
    [Logger.Panicln] panics with its message, as [log.Logger.Panicln] does. *)
Definition Logger_Panicln (msg : string) (st : State) : State := panic msg st.

(** [serve] from its first statement to the loop head, lines 62-68.  The
    deferred close of line 62 runs while the panic of line 65 unwinds; the
    state that results is the one of the close followed by the panic. *)
Definition serve (st : State) : State :=
  match Handler (srv st) with
  | None => listener_Close st >> Logger_Panicln panic_no_handler
  | Some _ => set_acceptor (Serving (AtSelect 0)) st
  end.

(** [Serve], lines 50-53. *)
Definition Serve (l : Listener) (st : State) : State :=
  serve (set_srv (set_listener (Some l) (srv st)) st).

(** [ServeTLS], lines 55-58. *)
Definition ServeTLS (l : Listener) (st : State) : State :=
  serve (set_srv (set_listener (Some (tls_NewListener l (TLSConfig (srv st)))) (srv st)) st).

(** Line 97: [cli.rwc.RemoteAddr().String()] is evaluated for the log; on a
    nil [RemoteAddr()] the call panics.  Otherwise [Logger.Printf] writes a
    line of log, which changes nothing here. *)
Definition log_accepted (inp : Input) (st : State) : State :=
  match in_remote inp with
  | None => panic panic_nil_addr st
  | Some _ => st
  end.

(** [s.wg.Add(1)], line 98: one more than the [int32] maximum wraps the
    counter below zero, and [Add] panics. *)
Definition wg_Add1 (st : State) : State :=
  if Z.ltb wg_max (wg (srv st) + 1) then panic panic_negative_wg st
  else set_srv (set_wg (wg (srv st) + 1) (srv st)) st.

(** [return err] out of [serve]: the deferred [s.listener.Close()] of line 62
    runs first. *)
Definition serve_return (err : option error) (st : State) : State :=
  listener_Close st >> set_acceptor (Returned err).

(** One statement of the loop of [serve], lines 70-100.  The statement at
    [AtNewConn] runs lines 83-97 on the accepted connection; when line 97
    panics the process ends there, lines 98 and 99 not being reached. *)
Definition serve_step (inp : Input) (pc : ServePc) (st : State) : State :=
  match pc with
  | AtSelect i =>
      if chDone (srv st)
      then listener_Close st >> serve_return None         (* lines 72-74 *)
      else set_acceptor (Serving (AtAccept i)) st          (* default *)
  | AtAccept i =>
      match listener (srv st) with
      | None => panic panic_nil_listener st
      | Some l =>
          match Accept l (in_arrival inp) with
          | Some err => serve_return (Some err) st         (* lines 79-81 *)
          | None =>
              set_acceptor (Serving (AtNewConn i (length (conns st))))
                (set_conns (conns st ++ [new_conn]) st)
          end
      end
  | AtNewConn i rw =>
      let s := srv st in
      let st2 := set_conns (alter (set_deadlines s inp) rw (conns st)) st in
      match newClient s rw with
      | (_, Some _) => set_acceptor (Serving (AtSelect i)) st2     (* continue *)
      | (cli, None) =>
          let i' := int_add i 1 in
          log_accepted inp
            (set_acceptor (Serving (AtWgAdd i' (length (clients st2))))
               (set_clients (clients st2 ++ [set_Numero i' cli]) st2))
      end
  | AtWgAdd i cli =>
      wg_Add1 st >> set_acceptor (Serving (AtGo i cli))
  | AtGo i cli =>
      set_acceptor (Serving (AtSelect i))
        (set_workers (workers st ++ [{| w_cli := cli; w_done := false |}]) st)
  end.

(** One statement of [Stop], lines 126-129; [None] while [wg.Wait] blocks.
    The two [Logger.Print] of lines 128 and 130 change nothing here. *)
Definition stop_step (k : nat) (pc : StopPc) (st : State) : option State :=
  match pc with
  | AtClose =>
      Some (listener_Close st >> set_stoppers (<[k := AtSignal]> (stoppers st)))
  | AtSignal =>
      if chDone (srv st) then Some (panic panic_close_closed st)
      else Some (set_stoppers (<[k := AtWait]> (stoppers st))
                   (set_srv (set_chDone true (srv st)) st))
  | AtWait =>
      if Z.eqb (wg (srv st)) 0
      then Some (set_stoppers (<[k := StopReturned]> (stoppers st)) st)
      else None
  | StopReturned => None
  end.

(** Modelled from the spec: [client.serve] is not in server.go.  Following
    "when the worker returns, the Session closes its connection and is
    discarded; the worker decrements the live-worker counter as its last
    act", the exit of worker [n] closes the connection of its client and
    calls [wg.Done], which panics on a negative counter. *)
Definition worker_exit (n : nat) (w : Worker) (st : State) : State :=
  let rw := default 0%nat (rwc <$> clients st !! w_cli w) in
  let st1 := set_conns (alter conn_Close rw (conns st)) st in
  let st2 := set_workers (<[n := {| w_cli := w_cli w; w_done := true |}]> (workers st1)) st1 in
  let c := wg (srv st2) - 1 in
  if Z.ltb c 0 then panic panic_negative_wg st2
  else set_srv (set_wg c (srv st2)) st2.

(** ** The transition system *)

Inductive Label : Type :=
| CallHandle (h : option HandlerI)   (* s.Handle(h) *)
| CallServe (l : Listener)           (* s.Serve(l), up to the loop head *)
| CallServeTLS (l : Listener)        (* s.ServeTLS(l), up to the loop head *)
| StepServe (inp : Input)            (* the next statement of the loop *)
| CallStop                           (* a call of s.Stop() begins *)
| StepStop (k : nat)                 (* the next statement of call k of Stop *)
| WorkerExit (n : nat).              (* worker n returns *)

(** [None]: the label is not enabled (the goroutine does not exist, is
    blocked or has returned, or the process has crashed).  [step] follows a
    server through its first serving, the lifecycle of the spec: [CallServe]
    and [CallServeTLS] are enabled while no loop was started.  The later
    calls are added by [life_step] below. *)
Definition step (lbl : Label) (st : State) : option State :=
  match crashed st with
  | Some _ => None
  | None =>
      match lbl with
      | CallHandle h =>
          match Handle h (srv st) with
          | inl s' => Some (set_srv s' st)
          | inr msg => Some (panic msg st)
          end
      | CallServe l =>
          match acceptor st with
          | NotStarted => Some (Serve l st)
          | _ => None
          end
      | CallServeTLS l =>
          match acceptor st with
          | NotStarted => Some (ServeTLS l st)
          | _ => None
          end
      | StepServe inp =>
          match acceptor st with
          | Serving pc => Some (serve_step inp pc st)
          | _ => None
          end
      | CallStop => Some (set_stoppers (stoppers st ++ [AtClose]) st)
      | StepStop k =>
          match stoppers st !! k with
          | Some pc => stop_step k pc st
          | None => None
          end
      | WorkerExit n =>
          match workers st !! n with
          | Some w => if w_done w then None else Some (worker_exit n w st)
          | None => None
          end
      end
  end.

Fixpoint run (lbls : list Label) (st : State) : option State :=
  match lbls with
  | [] => Some st
  | lbl :: rest =>
      match step lbl st with
      | Some st' => run rest st'
      | None => None
      end
  end.

(** A server as [NewServer] returns it, then configured: nothing bound,
    nothing accepted, no goroutine. *)
Definition init (s : Server) : State :=
  {| srv := set_chDone false (set_wg 0 (set_listener None s));
     conns := []; clients := []; workers := [];
     acceptor := NotStarted; stoppers := []; crashed := None |}.

Definition reachable (st : State) : Prop :=
  exists (s : Server) (lbls : list Label), run lbls (init s) = Some st.

(** ** The whole lifetime of a server

    [Serve] and [ServeTLS] have no guard (lines 50-58): once a call has
    returned, the server can be served again.  The new call binds its
    listener and enters [serve], whose counter [i] is a local and starts at 0
    again.  [Serve] blocks its caller until the loop returns, and the calls
    do not overlap here. *)

Definition is_serve_call (lbl : Label) : bool :=
  match lbl with
  | CallServe _ | CallServeTLS _ => true
  | _ => false
  end.

Definition life_step (lbl : Label) (st : State) : option State :=
  match crashed st, lbl, acceptor st with
  | None, CallServe l, Returned _ => Some (Serve l st)
  | None, CallServeTLS l, Returned _ => Some (ServeTLS l st)
  | _, _, _ => step lbl st
  end.

Fixpoint life_run (lbls : list Label) (st : State) : option State :=
  match lbls with
  | [] => Some st
  | lbl :: rest =>
      match life_step lbl st with
      | Some st' => life_run rest st'
      | None => None
      end
  end.

Definition life_reachable (st : State) : Prop :=
  exists (s : Server) (lbls : list Label), life_run lbls (init s) = Some st.

(** ** Invariants of the reachable states *)

(** The workers that have not returned yet. *)
Fixpoint live (ws : list Worker) : Z :=
  match ws with
  | [] => 0
  | w :: rest => (if w_done w then 0 else 1) + live rest
  end.

(** The client counted at line 98 whose goroutine line 99 has yet to start. *)
Definition pending (a : Acceptor) : Z :=
  match a with
  | Serving (AtGo _ _) => 1
  | _ => 0
  end.

(** The clients line 98 has counted so far. *)
Definition counted (st : State) : nat :=
  match acceptor st with
  | Serving (AtGo _ _) => S (length (workers st))
  | _ => length (workers st)
  end.

Definition pc_counter (pc : ServePc) : Z :=
  match pc with
  | AtSelect i | AtAccept i | AtNewConn i _ | AtWgAdd i _ | AtGo i _ => i
  end.

Definition acceptor_ok (st : State) : Prop :=
  let n := length (clients st) in
  match acceptor st with
  | NotStarted =>
      n = 0%nat /\ length (conns st) = 0%nat /\ length (workers st) = 0%nat /\
      (crashed st = None -> listener (srv st) = None)
  | Serving pc =>
      pc_counter pc = wrap_int (Z.of_nat n) /\
      match pc with
      | AtSelect _ | AtAccept _ =>
          length (conns st) = n /\ length (workers st) = n
      | AtNewConn _ rw =>
          rw = n /\ length (conns st) = S n /\ length (workers st) = n /\
          conns st !! rw = Some new_conn
      | AtWgAdd _ cli | AtGo _ cli =>
          S cli = n /\ length (conns st) = n /\ S (length (workers st)) = n
      end
  | Returned _ => length (conns st) = n /\ length (workers st) = n
  end.

(** What holds along a lifetime, [base] being the number of clients built
    before the current call of [serve]. *)
Definition life_ok (base : nat) (st : State) : Prop :=
  let n := length (clients st) in
  (base <= n)%nat /\
  (forall k c, clients st !! k = Some c ->
     rwc c = k /\
     ((base <= k)%nat -> Numero c = wrap_int (Z.of_nat (k - base) + 1))) /\
  (forall k w, workers st !! k = Some w -> w_cli w = k) /\
  match acceptor st with
  | NotStarted =>
      n = 0%nat /\ length (conns st) = 0%nat /\ length (workers st) = 0%nat
  | Serving pc =>
      pc_counter pc = wrap_int (Z.of_nat (n - base)) /\
      match pc with
      | AtSelect _ | AtAccept _ =>
          length (conns st) = n /\ length (workers st) = n
      | AtNewConn _ rw =>
          rw = n /\ length (conns st) = S n /\ length (workers st) = n
      | AtWgAdd _ cli | AtGo _ cli =>
          S cli = n /\ (base < n)%nat /\ length (conns st) = n /\
          S (length (workers st)) = n
      end
  | Returned _ => length (conns st) = n /\ length (workers st) = n
  end.

(** What lines 83-88 leave on a connection. *)
Definition deadlines_ok (timeout : Duration) (ds : list Time) : Prop :=
  ds = [] \/ (timeout <> 0 /\ exists now, ds = [time_Add now timeout]).

Record Inv (st : State) : Prop := mkInv {
  inv_wg : wg (srv st) = live (workers st) + pending (acceptor st);
  inv_acceptor : acceptor_ok st;
  inv_clients : forall k c, clients st !! k = Some c ->
      rwc c = k /\ Numero c = wrap_int (Z.of_nat k + 1);
  inv_workers : forall k w, workers st !! k = Some w -> w_cli w = k;
  inv_listener :
      (chDone (srv st) = true \/
       exists k pc, stoppers st !! k = Some pc /\ pc <> AtClose) ->
      exists l, listener (srv st) = Some l /\ ln_closed l = true;
  inv_deadlines : forall k c, conns st !! k = Some c ->
      deadlines_ok (ReadTimeout (srv st)) (c_readDeadlines c) /\
      deadlines_ok (WriteTimeout (srv st)) (c_writeDeadlines c)
}.

End Model.

Arguments ListenerKind : clear implicits.
Arguments Listener : clear implicits.
Arguments Conn : clear implicits.
Arguments Server : clear implicits.
Arguments State : clear implicits.
Arguments Input : clear implicits.
Arguments Label : clear implicits.

Notation "st >> k" := (and_then st k) (at level 60, right associativity).

(** ** A concrete server, for the examples

    Handlers and TLS configurations are numbered, time is a count of
    nanoseconds and [Time.Add] is the addition. *)

Definition plain_listener : Listener nat :=
  {| ln_kind := PlainListener; ln_closed := false |}.

(** A server with no handler yet, a read timeout of 50ms and no write
    timeout. *)
Definition bare_server : Server nat nat :=
  {| Handler := None; TLSConfig := None; ReadTimeout := 50000000; WriteTimeout := 0;
     OnNewConnection := None; listener := None; wg := 0; chDone := false |}.

(** The same server once [Handle] has registered handler 1. *)
Definition demo_server : Server nat nat := set_Handler (Some 1%nat) bare_server.

(** The same server with a hook that rejects every connection. *)
Definition rejecting_hook : nat -> option error := fun _ => Some (ErrOther "rejected").

Definition hooked_server : Server nat nat :=
  {| Handler := Some 1%nat; TLSConfig := None; ReadTimeout := 0; WriteTimeout := 0;
     OnNewConnection := Some rejecting_hook; listener := None; wg := 0; chDone := false |}.

(** The environment of a step: a connection arrives, or the accept fails;
    the clock reads [t]. *)
Definition arrival (t : Z) : Input Z :=
  {| in_arrival := None; in_now_read := t; in_now_write := t + 1;
     in_remote := Some "192.0.2.7:49152" |}.

Definition failure (e : error) : Input Z :=
  {| in_arrival := Some e; in_now_read := 0; in_now_write := 0;
     in_remote := Some "192.0.2.7:49152" |}.


(** One whole iteration of the loop on a connection arriving at [t]:
    select, accept, lines 83-96, [wg.Add], [go]. *)
Definition accept_one (t : Z) : list (Label nat nat Z) :=
  [StepServe (arrival t); StepServe (arrival t); StepServe (arrival t);
   StepServe (arrival t); StepServe (arrival t)].

(** One whole call of [Stop], numbered [k], when no worker is live. *)
Definition stop_call (k : nat) : list (Label nat nat Z) :=
  [CallStop; StepStop k; StepStop k; StepStop k].

(** The state a run leaves, from a server just configured. *)
Definition after (lbls : list (Label nat nat Z)) (s : Server nat nat) : State nat nat Z :=
  default (init s) (run Z.add lbls (init s)).

(** The same along a lifetime, where the server may be served again. *)
Definition life_after (lbls : list (Label nat nat Z)) (s : Server nat nat) :
    State nat nat Z :=
  default (init s) (life_run Z.add lbls (init s)).

(** A first serving that accepts one connection and ends on a failed
    accept. *)
Definition first_serving : list (Label nat nat Z) :=
  CallServe plain_listener :: accept_one 1 ++
  [StepServe (arrival 2); StepServe (failure (ErrOther "too many open files"))].

(** The loop stands right after its first successful accept. *)
Definition first_accepted : State nat nat Z :=
  after [CallServe plain_listener; StepServe (arrival 0); StepServe (arrival 0)]
        demo_server.

(** The loop is about to accept, and a call of [Stop] has just closed the
    listener. *)
Definition closed_under_accept : State nat nat Z :=
  after [CallServe plain_listener; StepServe (arrival 0); CallStop; StepStop 0]
        demo_server.

(** The server has stopped: one whole call of [Stop] has returned. *)
Definition stopped_once : State nat nat Z :=
  after (CallServe plain_listener :: stop_call 0) demo_server.

(** * Properties *)

(** ** Arithmetic of [int] *)

Lemma wrap_int_small z :
  - 2 ^ 63 <= z <= int_max -> wrap_int z = z.
Proof.
  unfold wrap_int, int_max, int_bits; intros Hz.
  change (2 ^ (64 - 1)) with 9223372036854775808 in *.
  change (2 ^ 64) with 18446744073709551616.
  change (2 ^ 63) with 9223372036854775808 in Hz.
  rewrite Z.mod_small; lia.
Qed.

Lemma wrap_int_succ a : wrap_int (wrap_int a + 1) = wrap_int (a + 1).
Proof.
  unfold wrap_int, int_bits.
  change (2 ^ (64 - 1)) with 9223372036854775808.
  change (2 ^ 64) with 18446744073709551616.
  f_equal.
  replace ((a + 9223372036854775808) mod 18446744073709551616
           - 9223372036854775808 + 1 + 9223372036854775808)
    with ((a + 9223372036854775808) mod 18446744073709551616 + 1) by lia.
  replace (a + 1 + 9223372036854775808) with (a + 9223372036854775808 + 1) by lia.
  rewrite Z.add_mod_idemp_l; [reflexivity | lia].
Qed.

(** The counter of line 95 wraps at the top of the range of [int]. *)
Example int_add_wraps : int_add int_max 1 = - 2 ^ 63.
Proof. reflexivity. Qed.

Section Properties.

Context {HandlerI TLSConfigT Time : Type}.
Context (time_Add : Time -> Duration -> Time).

Local Abbreviation ServerT := (Server HandlerI TLSConfigT).
Local Abbreviation StateT := (State HandlerI TLSConfigT Time).
Local Abbreviation LabelT := (Label HandlerI TLSConfigT Time).
Local Abbreviation InputT := (Input Time).

Implicit Types (st : StateT) (s : ServerT) (lbl : LabelT) (inp : InputT).

(** ** The live workers *)

Lemma live_app ws1 ws2 : live (ws1 ++ ws2) = live ws1 + live ws2.
Proof. induction ws1 as [|w ws1 IH]; simpl; lia. Qed.

Lemma live_nonneg ws : 0 <= live ws.
Proof. induction ws as [|w ws IH]; simpl; [lia | destruct (w_done w); lia]. Qed.

Lemma live_exit ws n w :
  ws !! n = Some w -> w_done w = false ->
  live (<[n := {| w_cli := w_cli w; w_done := true |}]> ws) = live ws - 1.
Proof.
  revert n; induction ws as [|w0 ws IH]; intros [|n] Hn Hd; simpl in *; try discriminate.
  - injection Hn as ->. rewrite Hd. lia.
  - rewrite (IH n Hn Hd). lia.
Qed.

Lemma live_zero_done ws n w : live ws = 0 -> ws !! n = Some w -> w_done w = true.
Proof.
  revert n; induction ws as [|w0 ws IH]; intros [|n] H0 Hn; simpl in *; try discriminate.
  - injection Hn as ->. pose proof (live_nonneg ws). destruct (w_done w); [reflexivity | lia].
  - pose proof (live_nonneg ws). apply (IH n); [destruct (w_done w0); lia | exact Hn].
Qed.

(** ** The invariant holds on every reachable state *)

Lemma init_Inv s : Inv time_Add (init s).
Proof.
  split; simpl.
  - reflexivity.
  - unfold acceptor_ok; simpl. auto.
  - intros k c Hk; rewrite lookup_nil in Hk; discriminate.
  - intros k c Hk; rewrite lookup_nil in Hk; discriminate.
  - intros [H | (k & pc & Hk & _)]; [discriminate |].
    rewrite lookup_nil in Hk; discriminate.
  - intros k c Hk; rewrite lookup_nil in Hk; discriminate.
Qed.

Lemma Handle_Inv h st s' :
  Inv time_Add st -> Handle h (srv st) = inl s' -> Inv time_Add (set_srv s' st).
Proof.
  intros [Hwg Hacc Hcl Hwk Hln Hdl] HH. unfold Handle in HH.
  destruct (Handler (srv st)); [discriminate |]. injection HH as <-.
  split; simpl; auto.
Qed.

Lemma panic_Inv msg st : Inv time_Add st -> Inv time_Add (panic msg st).
Proof.
  intros [Hwg Hacc Hcl Hwk Hln Hdl]. split; simpl; auto.
  unfold acceptor_ok in *; simpl. destruct (acceptor st); auto.
  destruct Hacc as (? & ? & ? & ?). repeat split; auto. discriminate.
Qed.

Lemma and_then_Inv st (k : StateT -> StateT) :
  Inv time_Add st -> (crashed st = None -> Inv time_Add (k st)) ->
  Inv time_Add (st >> k).
Proof. intros H Hk. unfold and_then. destruct (crashed st); auto. Qed.

Lemma listener_Close_Inv st : Inv time_Add st -> Inv time_Add (listener_Close st).
Proof.
  intros HI. unfold listener_Close.
  destruct (listener (srv st)) as [l|] eqn:Hl; [| by apply panic_Inv].
  destruct HI as [Hwg Hacc Hcl Hwk Hln Hdl]. split; simpl; auto.
  - unfold acceptor_ok in *; simpl. destruct (acceptor st); auto.
    destruct Hacc as (? & ? & ? & Hnone). repeat split; auto.
    intros Hc. specialize (Hnone Hc). congruence.
  - intros _. eauto.
Qed.

Lemma listener_Close_closed st :
  crashed st = None -> crashed (listener_Close st) = None ->
  exists l, listener (srv (listener_Close st)) = Some l /\ ln_closed l = true.
Proof.
  unfold listener_Close. destruct (listener (srv st)) as [l|]; simpl; intros H1 H2.
  - eauto.
  - discriminate.
Qed.

Lemma serve_Inv st l :
  Inv time_Add st -> acceptor st = NotStarted -> crashed st = None ->
  Inv time_Add (serve (set_srv (set_listener (Some l) (srv st)) st)).
Proof.
  intros [Hwg Hacc Hcl Hwk Hln Hdl] Ha Hc.
  assert (Hnone : listener (srv st) = None).
  { unfold acceptor_ok in Hacc. rewrite Ha in Hacc. tauto. }
  assert (Hpre : ~ (chDone (srv st) = true \/
                    exists k pc, stoppers st !! k = Some pc /\ pc <> AtClose)).
  { intros H. destruct (Hln H) as (l0 & Hl0 & _). congruence. }
  rewrite Ha in Hwg. unfold acceptor_ok in Hacc. rewrite Ha in Hacc.
  destruct Hacc as (Hn1 & Hn2 & Hn3 & _).
  unfold serve, Logger_Panicln, listener_Close, and_then; simpl.
  destruct (Handler (srv st)); simpl; rewrite ?Hc; simpl.
  - split; simpl; auto.
    + unfold acceptor_ok; simpl. rewrite Hn1, Hn2, Hn3. auto.
    + intros H. exfalso. apply Hpre. exact H.
  - split; simpl; auto.
    + rewrite Ha. exact Hwg.
    + unfold acceptor_ok; simpl. rewrite Ha. repeat split; auto. discriminate.
    + eauto.
Qed.

Lemma Serve_Inv st l :
  Inv time_Add st -> acceptor st = NotStarted -> crashed st = None ->
  Inv time_Add (Serve l st).
Proof. apply serve_Inv. Qed.

Lemma ServeTLS_Inv st l :
  Inv time_Add st -> acceptor st = NotStarted -> crashed st = None ->
  Inv time_Add (ServeTLS l st).
Proof. apply serve_Inv. Qed.

Lemma listener_Close_frame st :
  acceptor (listener_Close st) = acceptor st /\
  conns (listener_Close st) = conns st /\
  clients (listener_Close st) = clients st /\
  workers (listener_Close st) = workers st /\
  stoppers (listener_Close st) = stoppers st /\
  wg (srv (listener_Close st)) = wg (srv st) /\
  chDone (srv (listener_Close st)) = chDone (srv st).
Proof.
  unfold listener_Close. destruct (listener (srv st)); simpl; repeat split; reflexivity.
Qed.

Lemma serve_return_Inv err st :
  Inv time_Add st -> (exists pc, acceptor st = Serving pc /\ pending (acceptor st) = 0 /\
     length (conns st) = length (clients st) /\
     length (workers st) = length (clients st)) ->
  Inv time_Add (serve_return err st).
Proof.
  intros HI (pc & Ha & Hp & Hc1 & Hc2). unfold serve_return.
  apply and_then_Inv; [by apply listener_Close_Inv |]. intros Hcr.
  destruct (listener_Close_frame st) as (Ea & Ec & El & Ew & _).
  destruct (listener_Close_Inv st HI) as [Hwg Hacc Hcl Hwk Hln Hdl].
  split; simpl; auto.
  - rewrite Hwg, Ea, Hp. lia.
  - unfold acceptor_ok; simpl. rewrite Ec, El, Ew. auto.
Qed.

Lemma log_accepted_Inv inp st :
  Inv time_Add st -> Inv time_Add (log_accepted inp st).
Proof.
  intros HI. unfold log_accepted. destruct (in_remote inp); [exact HI |].
  by apply panic_Inv.
Qed.

Lemma serve_step_Inv inp pc st :
  Inv time_Add st -> acceptor st = Serving pc -> crashed st = None ->
  Inv time_Add (serve_step time_Add inp pc st).
Proof.
  intros HI Ha Hcr.
  pose proof HI as [Hwg Hacc Hcl Hwk Hln Hdl].
  unfold acceptor_ok in Hacc. rewrite Ha in Hacc, Hwg. destruct Hacc as [Hi Hacc].
  destruct pc as [i | i | i rw | i cli | i cli]; simpl in *.
  - (* select *)
    destruct (chDone (srv st)).
    + apply and_then_Inv; [by apply listener_Close_Inv |]. intros _.
      destruct (listener_Close_frame st) as (Ea & Ec & El & Ew & _).
      apply serve_return_Inv; [by apply listener_Close_Inv |].
      exists (AtSelect i). rewrite Ea, Ec, El, Ew, Ha. simpl. tauto.
    + split; simpl; auto; [| apply HI]. unfold acceptor_ok; simpl. auto.
  - (* accept *)
    destruct (listener (srv st)) as [l|]; [| by apply panic_Inv].
    destruct (Accept l (in_arrival inp)).
    + apply serve_return_Inv; [done |]. exists (AtAccept i). rewrite Ha. simpl. tauto.
    + destruct Hacc as [Hc1 Hc2]. split; simpl; auto; try apply HI.
      * unfold acceptor_ok; simpl. rewrite length_app; simpl.
        repeat split; auto; try lia.
        rewrite lookup_app_r by lia. by rewrite Nat.sub_diag.
      * intros k c Hk. apply lookup_app_Some in Hk as [Hk | [_ Hk]]; [eauto |].
        apply list_lookup_singleton_Some in Hk as [_ <-]. simpl.
        split; left; reflexivity.
  - (* deadlines, newClient, Numero, the log *)
    apply log_accepted_Inv.
    destruct Hacc as (-> & Hc1 & Hc2 & Hnew). split; simpl; auto; try apply HI.
    + unfold acceptor_ok; simpl. rewrite length_app, length_alter; simpl.
      repeat split; try lia.
      rewrite Hi. unfold int_add. rewrite wrap_int_succ. f_equal. lia.
    + intros k c Hk. apply lookup_app_Some in Hk as [Hk | [Hge Hk]]; [eauto |].
      apply list_lookup_singleton_Some in Hk as [Hk <-]. simpl.
      split; [lia |]. rewrite Hi. unfold int_add. rewrite wrap_int_succ. f_equal. lia.
    + intros k c Hk. rewrite list_lookup_alter in Hk. case_decide as Hd.
      * subst k. rewrite Hnew in Hk. simpl in Hk. injection Hk as <-.
        unfold set_deadlines.
        destruct (Z.eqb_spec (ReadTimeout (srv st)) 0) as [Hr | Hr];
          destruct (Z.eqb_spec (WriteTimeout (srv st)) 0) as [Hw | Hw]; simpl;
          split; try (left; reflexivity); right; split; eauto.
      * by apply (Hdl k).
  - (* wg.Add(1) *)
    unfold wg_Add1.
    destruct (wg_max <? wg (srv st) + 1).
    { unfold and_then. simpl. by apply panic_Inv. }
    unfold and_then. simpl. rewrite Hcr.
    split; simpl; auto; try apply HI.
    + rewrite Hwg. lia.
    + unfold acceptor_ok; simpl. auto.
  - (* go cli.serve() *)
    destruct Hacc as (Hc0 & Hc1 & Hc2). split; simpl; auto; try apply HI.
    + rewrite Hwg, live_app. simpl. lia.
    + unfold acceptor_ok; simpl. rewrite length_app; simpl. repeat split; auto; lia.
    + intros k w Hk. apply lookup_app_Some in Hk as [Hk | [Hge Hk]]; [eauto |].
      apply list_lookup_singleton_Some in Hk as [Hk <-]. simpl. lia.
Qed.

Lemma stop_step_Inv k pc st st' :
  Inv time_Add st -> stoppers st !! k = Some pc ->
  stop_step k pc st = Some st' -> Inv time_Add st'.
Proof.
  intros HI Hk Hstep.
  assert (Hclosed : pc <> AtClose ->
            exists l, listener (srv st) = Some l /\ ln_closed l = true).
  { intros Hpc. apply HI. right. eauto. }
  destruct pc; simpl in Hstep.
  - (* s.listener.Close() *)
    injection Hstep as <-. unfold and_then.
    destruct (crashed (listener_Close st)) eqn:Hcr; [by apply listener_Close_Inv |].
    pose proof (listener_Close_Inv st HI) as HI'.
    destruct (listener_Close_frame st) as (Ea & Ec & El & Ew & Es & Eg & Ed).
    split; simpl; try apply HI'.
    intros _. unfold listener_Close in *.
    destruct (listener (srv st)); simpl in *; [eauto | discriminate].
  - (* close(s.chDone) *)
    destruct (chDone (srv st)); injection Hstep as <-; [by apply panic_Inv |].
    split; simpl; try apply HI.
    intros _. apply Hclosed. discriminate.
  - (* s.wg.Wait() *)
    destruct (wg (srv st) =? 0); [| discriminate]. injection Hstep as <-.
    split; simpl; try apply HI.
    intros _. apply Hclosed. discriminate.
  - discriminate.
Qed.

Lemma worker_exit_Inv n w st :
  Inv time_Add st -> workers st !! n = Some w -> w_done w = false ->
  Inv time_Add (worker_exit n w st).
Proof.
  intros HI Hn Hd. pose proof HI as [Hwg Hacc Hcl Hwk Hln Hdl].
  pose proof (live_exit _ _ _ Hn Hd) as Hlive.
  pose proof (live_nonneg (<[n:={| w_cli := w_cli w; w_done := true |}]> (workers st))) as Hnn.
  assert (Hp : 0 <= pending (acceptor st)).
  { destruct (acceptor st) as [|[]|]; simpl; lia. }
  unfold worker_exit; simpl.
  destruct (Z.ltb_spec (wg (srv st) - 1) 0) as [Hneg | Hpos]; [lia |].
  assert (Hnlt : (n < length (workers st))%nat) by (eapply lookup_lt_Some; eauto).
  assert (Hwn : w_cli w = n) by eauto.
  split; simpl; auto.
  - rewrite Hlive, Hwg. lia.
  - unfold acceptor_ok in *; simpl. rewrite length_alter, length_insert.
    destruct (acceptor st) as [|pc|]; auto.
    destruct Hacc as [Hi Hacc]. split; [exact Hi |].
    destruct pc; auto.
    destruct Hacc as (-> & Hc1 & Hc2 & Hnew). repeat split; auto.
    rewrite list_lookup_alter_ne; [exact Hnew |].
    destruct (lookup_lt_is_Some_2 (clients st) n) as [c Hc]; [lia |].
    rewrite Hwn, Hc. simpl. pose proof (Hcl _ _ Hc) as [Hr _]. rewrite Hr. lia.
  - intros k w' Hk. rewrite list_lookup_insert in Hk.
    destruct (decide (n = k ∧ (n < length (workers st))%nat)) as [[<- _] | _]; [| eauto].
    by injection Hk as <-.
  - intros k c Hk. rewrite list_lookup_alter in Hk. case_decide; [| eauto].
    apply fmap_Some in Hk as (c0 & Hc0 & ->). simpl. eauto.
Qed.

Lemma step_Inv lbl st st' :
  Inv time_Add st -> step time_Add lbl st = Some st' -> Inv time_Add st'.
Proof.
  intros HI Hstep. unfold step in Hstep.
  destruct (crashed st) eqn:Hcr; [discriminate |].
  destruct lbl as [h | l | l | inp | | k | n].
  - destruct (Handle h (srv st)) eqn:HH; injection Hstep as <-.
    + by apply Handle_Inv with h.
    + by apply panic_Inv.
  - destruct (acceptor st) eqn:Ha; try discriminate. injection Hstep as <-.
    by apply Serve_Inv.
  - destruct (acceptor st) eqn:Ha; try discriminate. injection Hstep as <-.
    by apply ServeTLS_Inv.
  - destruct (acceptor st) eqn:Ha; try discriminate. injection Hstep as <-.
    by apply serve_step_Inv.
  - injection Hstep as <-. split; simpl; try apply HI.
    intros [H | (k & pc & Hk & Hpc)]; [apply HI; auto |].
    apply lookup_app_Some in Hk as [Hk | [_ Hk]]; [apply HI; eauto |].
    apply list_lookup_singleton_Some in Hk as [_ <-]. done.
  - destruct (stoppers st !! k) eqn:Hk; [| discriminate].
    by eapply stop_step_Inv.
  - destruct (workers st !! n) as [w|] eqn:Hn; [| discriminate].
    destruct (w_done w) eqn:Hd; [discriminate |]. injection Hstep as <-.
    by apply worker_exit_Inv.
Qed.

Lemma run_Inv lbls st st' :
  Inv time_Add st -> run time_Add lbls st = Some st' -> Inv time_Add st'.
Proof.
  revert st; induction lbls as [|lbl lbls IH]; simpl; intros st HI Hrun.
  - by injection Hrun as <-.
  - destruct (step time_Add lbl st) eqn:Hstep; [| discriminate].
    eapply IH; [| exact Hrun]. by eapply step_Inv.
Qed.

Lemma reachable_Inv st : reachable time_Add st -> Inv time_Add st.
Proof. intros (s & lbls & Hrun). eapply run_Inv; [apply init_Inv | exact Hrun]. Qed.

(** The counter of the wait group never goes below zero, so [wg.Done] never
    panics. *)
Lemma wg_nonneg st : reachable time_Add st -> 0 <= wg (srv st).
Proof.
  intros Hre. rewrite (inv_wg _ _ (reachable_Inv _ Hre)).
  pose proof (live_nonneg (workers st)).
  destruct (acceptor st) as [|[]|]; simpl; lia.
Qed.

(** A server fresh from [NewServer] is an initial state as it is. *)
Lemma init_NewServer : srv (init NewServer : StateT) = NewServer.
Proof. reflexivity. Qed.

(** ** What no step changes *)

Ltac step_inv H :=
  unfold step, Handle, Serve, ServeTLS, serve, Logger_Panicln, serve_step, serve_return,
    log_accepted, wg_Add1, stop_step, worker_exit, listener_Close, and_then, panic in H;
  simpl in H;
  repeat (match type of H with
          | context [match ?x with _ => _ end] =>
              lazymatch x with
              | context [match _ with _ => _ end] => fail
              | _ => destruct x eqn:?
              end
          end; simpl in H; try discriminate);
  try (injection H as <-); simpl in *.

Lemma step_frame lbl st st' :
  step time_Add lbl st = Some st' ->
  (chDone (srv st) = true -> chDone (srv st') = true) /\
  (forall h, Handler (srv st) = Some h -> Handler (srv st') = Some h) /\
  ReadTimeout (srv st') = ReadTimeout (srv st) /\
  WriteTimeout (srv st') = WriteTimeout (srv st) /\
  (length (conns st) <= length (conns st'))%nat /\
  (length (workers st) <= length (workers st'))%nat.
Proof.
  intros Hstep. step_inv Hstep;
    rewrite ?length_app, ?length_alter, ?length_insert; simpl;
    repeat split; auto; try lia; try congruence.
Qed.

(** ** After a panic *)

Lemma crashed_stuck lbl st msg : crashed st = Some msg -> step time_Add lbl st = None.
Proof. intros H. unfold step. by rewrite H. Qed.

Lemma crashed_run lbls st st' msg :
  crashed st = Some msg -> run time_Add lbls st = Some st' -> st' = st.
Proof.
  intros Hc Hrun. destruct lbls as [|lbl lbls]; simpl in Hrun.
  - by injection Hrun.
  - by rewrite (crashed_stuck lbl st msg Hc) in Hrun.
Qed.

Lemma run_app l1 l2 st :
  run time_Add (l1 ++ l2) st =
  match run time_Add l1 st with
  | Some st1 => run time_Add l2 st1
  | None => None
  end.
Proof.
  revert st; induction l1 as [|lbl l1 IH]; intros st; simpl; [reflexivity |].
  destruct (step time_Add lbl st); [apply IH | reflexivity].
Qed.

Lemma reachable_run lbls st st' :
  reachable time_Add st -> run time_Add lbls st = Some st' -> reachable time_Add st'.
Proof.
  intros (s & l0 & H0) Hrun. exists s, (l0 ++ lbls). by rewrite run_app, H0.
Qed.

Lemma run_frame lbls st st' :
  run time_Add lbls st = Some st' ->
  (chDone (srv st) = true -> chDone (srv st') = true) /\
  (forall h, Handler (srv st) = Some h -> Handler (srv st') = Some h) /\
  ReadTimeout (srv st') = ReadTimeout (srv st) /\
  WriteTimeout (srv st') = WriteTimeout (srv st) /\
  (length (conns st) <= length (conns st'))%nat /\
  (length (workers st) <= length (workers st'))%nat.
Proof.
  revert st; induction lbls as [|lbl lbls IH]; simpl; intros st Hrun.
  - injection Hrun as <-. repeat split; auto.
  - destruct (step time_Add lbl st) as [st1|] eqn:Hstep; [| discriminate].
    destruct (step_frame _ _ _ Hstep) as (A1 & A2 & A3 & A4 & A5 & A6).
    destruct (IH _ Hrun) as (B1 & B2 & B3 & B4 & B5 & B6).
    repeat split; auto; try congruence; lia.
Qed.

(** ** Handler registration *)

(** C6: [Serve] and [ServeTLS] on a server with no handler panic before the
    loop is entered: the process ends with "No LDAP Request Handler defined",
    the accept loop never starts, and no connection is ever accepted. *)
Theorem serve_without_handler_refuses st (l : Listener TLSConfigT) lbl :
  reachable time_Add st -> crashed st = None -> acceptor st = NotStarted ->
  Handler (srv st) = None ->
  lbl = CallServe l \/ lbl = CallServeTLS l ->
  exists st',
    step time_Add lbl st = Some st' /\
    crashed st' = Some panic_no_handler /\
    forall lbls st'', run time_Add lbls st' = Some st'' ->
      acceptor st'' = NotStarted /\ conns st'' = [] /\ clients st'' = [] /\
      workers st'' = [].
Proof.
  intros Hre Hc Ha Hh Hl.
  pose proof (inv_acceptor _ _ (reachable_Inv _ Hre)) as Hacc.
  unfold acceptor_ok in Hacc. rewrite Ha in Hacc.
  destruct Hacc as (H1 & H2 & H3 & _).
  apply length_zero_iff_nil in H1, H2, H3.
  assert (Hgo : forall l0, exists st',
            serve (set_srv (set_listener (Some l0) (srv st)) st) = st' /\
            crashed st' = Some panic_no_handler /\ acceptor st' = NotStarted /\
            conns st' = [] /\ clients st' = [] /\ workers st' = []).
  { intros l0. eexists; split; [reflexivity |].
    unfold serve, Logger_Panicln, listener_Close, and_then; simpl. rewrite Hh; simpl. rewrite Hc; simpl.
    auto. }
  assert (Hfin : exists st', step time_Add lbl st = Some st' /\
            crashed st' = Some panic_no_handler /\ acceptor st' = NotStarted /\
            conns st' = [] /\ clients st' = [] /\ workers st' = []).
  { unfold step. rewrite Hc. destruct Hl as [-> | ->]; rewrite Ha.
    - destruct (Hgo l) as (st' & <- & Hr). eexists; split; [reflexivity | exact Hr].
    - destruct (Hgo (tls_NewListener l (TLSConfig (srv st)))) as (st' & <- & Hr).
      eexists; split; [reflexivity | exact Hr]. }
  destruct Hfin as (st' & Hs & Hcr & Hr).
  exists st'. split; [exact Hs |]. split; [exact Hcr |].
  intros lbls st'' Hrun. by rewrite (crashed_run _ _ _ _ Hcr Hrun).
Qed.

(** C7: [Handle] on a server that already has a handler panics with
    "LDAP: multiple Handler registrations"; the server is left as it was, so
    the first handler stays, the process ends there without accepting
    anything, and along every run a registered handler is never replaced. *)
Theorem handle_twice_panics st (h0 : HandlerI) (h : option HandlerI) :
  crashed st = None -> Handler (srv st) = Some h0 ->
  Handle h (srv st) = inr panic_multiple_handlers /\
  (exists st',
     step time_Add (CallHandle h) st = Some st' /\
     crashed st' = Some panic_multiple_handlers /\
     srv st' = srv st /\ conns st' = conns st /\
     forall lbl, step time_Add lbl st' = None) /\
  (forall lbls st', run time_Add lbls st = Some st' -> Handler (srv st') = Some h0).
Proof.
  intros Hc Hh. split; [| split].
  - unfold Handle. by rewrite Hh.
  - exists (panic panic_multiple_handlers st).
    split; [unfold step, Handle; by rewrite Hc, Hh |].
    repeat split.
  - intros lbls st' Hrun. by apply (run_frame _ _ _ Hrun).
Qed.

(** ** Along the whole lifetime *)

Lemma life_step_not_serve lbl st :
  is_serve_call lbl = false -> life_step time_Add lbl st = step time_Add lbl st.
Proof.
  intros Hl. unfold life_step. destruct (crashed st); [reflexivity |].
  destruct lbl; try reflexivity; discriminate.
Qed.

Lemma step_life_step lbl st st' :
  step time_Add lbl st = Some st' -> life_step time_Add lbl st = Some st'.
Proof.
  intros Hstep. unfold life_step.
  destruct (crashed st) eqn:Hc; [exact Hstep |].
  destruct lbl; try exact Hstep;
    (destruct (acceptor st) eqn:Ha; try exact Hstep;
     unfold step in Hstep; rewrite Hc, Ha in Hstep; discriminate).
Qed.

Lemma run_life_run lbls st st' :
  run time_Add lbls st = Some st' -> life_run time_Add lbls st = Some st'.
Proof.
  revert st; induction lbls as [|lbl lbls IH]; simpl; intros st Hrun; [exact Hrun |].
  destruct (step time_Add lbl st) as [st1|] eqn:Hstep; [| discriminate].
  rewrite (step_life_step _ _ _ Hstep). by apply IH.
Qed.

Lemma reachable_life_reachable st :
  reachable time_Add st -> life_reachable time_Add st.
Proof. intros (s & lbls & Hrun). exists s, lbls. by apply run_life_run. Qed.

Lemma life_run_app l1 l2 st :
  life_run time_Add (l1 ++ l2) st =
  match life_run time_Add l1 st with
  | Some st1 => life_run time_Add l2 st1
  | None => None
  end.
Proof.
  revert st; induction l1 as [|lbl l1 IH]; intros st; simpl; [reflexivity |].
  destruct (life_step time_Add lbl st); [apply IH | reflexivity].
Qed.

Lemma life_reachable_run lbls st st' :
  life_reachable time_Add st -> life_run time_Add lbls st = Some st' ->
  life_reachable time_Add st'.
Proof.
  intros (s & l0 & H0) Hrun. exists s, (l0 ++ lbls). by rewrite life_run_app, H0.
Qed.

Lemma init_life_ok s : life_ok 0 (init s : StateT).
Proof.
  unfold life_ok; simpl. split; [lia |]. split; [| split]; auto.
  - intros k c Hk. rewrite lookup_nil in Hk. discriminate.
  - intros k w Hk. rewrite lookup_nil in Hk. discriminate.
Qed.

Lemma life_ok_same base st st' :
  clients st' = clients st -> length (conns st') = length (conns st) ->
  length (workers st') = length (workers st) ->
  (forall k w, workers st' !! k = Some w -> w_cli w = k) ->
  acceptor st' = acceptor st ->
  life_ok base st -> life_ok base st'.
Proof.
  unfold life_ok. intros E1 E2 E3 H4 E5 (Hb & Hcl & Hwk & Hacc).
  rewrite E1, E2, E3, E5. split; [exact Hb |]. split; [exact Hcl |].
  split; [exact H4 | exact Hacc].
Qed.

Lemma life_ok_returned base err st :
  life_ok base st ->
  (exists i, acceptor st = Serving (AtSelect i) \/ acceptor st = Serving (AtAccept i)) ->
  life_ok base (serve_return err st) /\ life_ok base (listener_Close st).
Proof.
  intros HL (i & Ha).
  assert (HC : life_ok base (listener_Close st)).
  { destruct (listener_Close_frame st) as (Ea & Ec & El & Ew & _).
    apply (life_ok_same base st); auto; try congruence.
    rewrite Ew. apply HL. }
  split; [| exact HC].
  unfold serve_return, and_then. destruct (crashed (listener_Close st)); [exact HC |].
  destruct (listener_Close_frame st) as (Ea & Ec & El & Ew & _).
  destruct HL as (Hb & Hcl & Hwk & Hacc).
  unfold life_ok; simpl. rewrite Ec, El, Ew.
  split; [exact Hb |]. split; [exact Hcl |]. split; [exact Hwk |].
  destruct Ha as [Ha | Ha]; rewrite Ha in Hacc; tauto.
Qed.

Lemma step_life_ok base lbl st st' :
  life_ok base st -> step time_Add lbl st = Some st' -> life_ok base st'.
Proof.
  intros HL Hstep. pose proof HL as (Hb & Hcl & Hwk & Hacc).
  unfold step in Hstep.
  destruct (crashed st) eqn:Hcr; [discriminate |].
  destruct lbl as [h | l | l | inp | | k | n].
  - destruct (Handle h (srv st)); injection Hstep as <-;
      apply (life_ok_same base st); simpl; auto.
  - destruct (acceptor st) eqn:Ha; try discriminate. injection Hstep as <-.
    destruct Hacc as (Hn & Hc1 & Hc2).
    unfold Serve, serve, Logger_Panicln, listener_Close, and_then; simpl.
    destruct (Handler (srv st)); simpl; rewrite ?Hcr; simpl.
    + assert (Hb0 : base = 0%nat) by lia. subst base.
      unfold life_ok; simpl. rewrite Hn.
      split; [lia |]. split; [exact Hcl |]. split; [exact Hwk |].
      simpl. rewrite Hc1, Hc2. auto.
    + apply (life_ok_same base st); simpl; auto.
  - destruct (acceptor st) eqn:Ha; try discriminate. injection Hstep as <-.
    destruct Hacc as (Hn & Hc1 & Hc2).
    unfold ServeTLS, serve, Logger_Panicln, listener_Close, and_then; simpl.
    destruct (Handler (srv st)); simpl; rewrite ?Hcr; simpl.
    + assert (Hb0 : base = 0%nat) by lia. subst base.
      unfold life_ok; simpl. rewrite Hn.
      split; [lia |]. split; [exact Hcl |]. split; [exact Hwk |].
      simpl. rewrite Hc1, Hc2. auto.
    + apply (life_ok_same base st); simpl; auto.
  - destruct (acceptor st) as [|pc|] eqn:Ha; try discriminate. injection Hstep as <-.
    destruct pc as [i | i | i rw | i cli | i cli]; simpl.
    + destruct (chDone (srv st)).
      * unfold and_then. destruct (crashed (listener_Close st)) eqn:Hc2.
        { apply (life_ok_returned base None st HL). eauto. }
        destruct (listener_Close_frame st) as (Ea & Ec & El & Ew & _).
        apply life_ok_returned; [apply (life_ok_returned base None st HL); eauto |].
        exists i. left. congruence.
      * unfold life_ok; simpl.
        split; [exact Hb |]. split; [exact Hcl |]. split; [exact Hwk | exact Hacc].
    + destruct (listener (srv st)) as [l|].
      2:{ apply (life_ok_same base st); simpl; auto. }
      destruct (Accept l (in_arrival inp)).
      * apply life_ok_returned; eauto.
      * unfold life_ok; simpl. rewrite length_app; simpl.
        destruct Hacc as (Hi & Hc1 & Hc2).
        split; [exact Hb |]. split; [exact Hcl |]. split; [exact Hwk |].
        split; [exact Hi |]. repeat split; lia.
    + assert (HL' : life_ok base
                (set_acceptor (Serving (AtWgAdd (int_add i 1) (length (clients st))))
                   (set_clients (clients st ++
                      [set_Numero (int_add i 1) (newClient (srv st) rw).1])
                      (set_conns (alter (set_deadlines time_Add (srv st) inp) rw (conns st))
                         st)))).
      { destruct Hacc as (Hi & -> & Hc1 & Hc2). simpl in Hi.
        unfold life_ok; simpl. rewrite length_app, length_alter; simpl.
        split; [lia |]. split; [| split; [exact Hwk |]].
        - intros k c Hk. apply lookup_app_Some in Hk as [Hk | [Hge Hk]]; [eauto |].
          apply list_lookup_singleton_Some in Hk as [Hk <-]. simpl.
          split; [lia |]. intros _. rewrite Hi. unfold int_add. rewrite wrap_int_succ.
          f_equal. lia.
        - split.
          + rewrite Hi. unfold int_add. rewrite wrap_int_succ. f_equal. lia.
          + repeat split; lia. }
      simpl in HL'. unfold log_accepted. destruct (in_remote inp); [exact HL' |].
      revert HL'. apply life_ok_same; simpl; auto.
    + unfold wg_Add1, and_then.
      destruct (wg_max <? wg (srv st) + 1); simpl; rewrite ?Hcr.
      * apply (life_ok_same base st); simpl; auto.
      * unfold life_ok; simpl.
        split; [exact Hb |]. split; [exact Hcl |]. split; [exact Hwk | exact Hacc].
    + destruct Hacc as (Hi & Hc0 & Hlt & Hc1 & Hc2).
      unfold life_ok; simpl. rewrite length_app; simpl.
      split; [lia |]. split; [exact Hcl |]. split.
      * intros k w Hk. apply lookup_app_Some in Hk as [Hk | [Hge Hk]]; [eauto |].
        apply list_lookup_singleton_Some in Hk as [Hk <-]. simpl. lia.
      * split; [exact Hi |]. split; [exact Hc1 | lia].
  - injection Hstep as <-. apply (life_ok_same base st); simpl; auto.
  - destruct (stoppers st !! k) as [pc|] eqn:Hk; [| discriminate].
    destruct pc; simpl in Hstep.
    + injection Hstep as <-. unfold and_then, listener_Close.
      destruct (listener (srv st)); simpl; rewrite ?Hcr;
        apply (life_ok_same base st); simpl; auto.
    + destruct (chDone (srv st)); injection Hstep as <-;
        apply (life_ok_same base st); simpl; auto.
    + destruct (wg (srv st) =? 0); [| discriminate]. injection Hstep as <-.
      apply (life_ok_same base st); simpl; auto.
    + discriminate.
  - destruct (workers st !! n) as [w|] eqn:Hn; [| discriminate].
    destruct (w_done w) eqn:Hd; [discriminate |]. injection Hstep as <-.
    assert (Hwk' : forall k w0,
              <[n:={| w_cli := w_cli w; w_done := true |}]> (workers st) !! k = Some w0 ->
              w_cli w0 = k).
    { intros k w0 Hk. rewrite list_lookup_insert in Hk.
      destruct (decide (n = k /\ (n < length (workers st))%nat)) as [[<- _] | _]; [| eauto].
      injection Hk as <-. simpl. eauto. }
    unfold worker_exit; simpl.
    destruct (wg (srv st) - 1 <? 0);
      apply (life_ok_same base st); simpl; auto;
      rewrite ?length_alter, ?length_insert; auto.
Qed.

Lemma life_step_life_ok base lbl st st' :
  life_ok base st -> life_step time_Add lbl st = Some st' ->
  life_ok (if is_serve_call lbl then length (clients st) else base) st' /\
  (is_serve_call lbl = true -> clients st' = clients st).
Proof.
  intros HL Hstep.
  assert (Hfirst : step time_Add lbl st = Some st' ->
            life_ok (if is_serve_call lbl then length (clients st) else base) st' /\
            (is_serve_call lbl = true -> clients st' = clients st)).
  { intros Hs. pose proof (step_life_ok base lbl st st' HL Hs) as HL'.
    destruct (is_serve_call lbl) eqn:Hl; [| split; [exact HL' | discriminate]].
    assert (Ha : acceptor st = NotStarted /\ clients st' = clients st).
    { clear -Hs Hl. destruct lbl; try discriminate; step_inv Hs; auto. }
    destruct Ha as [Ha Hc]. split; [| by intros _].
    destruct HL as (Hb & _ & _ & Hacc). rewrite Ha in Hacc.
    destruct Hacc as (Hn & _). rewrite Hn.
    replace 0%nat with base by lia. exact HL'. }
  unfold life_step in Hstep.
  destruct (crashed st) eqn:Hcr; [by apply Hfirst |].
  assert (Hagain : forall l e, acceptor st = Returned e ->
            life_ok (length (clients st))
              (serve (set_srv (set_listener (Some l) (srv st)) st)) /\
            clients (serve (set_srv (set_listener (Some l) (srv st)) st)) = clients st).
  { intros l e Ha. destruct HL as (Hb & Hcl & Hwk & Hacc). rewrite Ha in Hacc.
    destruct Hacc as (Hc1 & Hc2).
    unfold serve, Logger_Panicln, listener_Close, and_then; simpl.
    destruct (Handler (srv st)); simpl; rewrite ?Hcr; simpl;
      (split; [| reflexivity]); unfold life_ok; simpl; rewrite ?Ha;
      (split; [lia |]); (split; [| split; [exact Hwk |]]).
    - intros k c Hk. split; [by apply Hcl |].
      intros Hge. apply lookup_lt_Some in Hk. lia.
    - rewrite Nat.sub_diag. auto.
    - intros k c Hk. split; [by apply Hcl |].
      intros Hge. apply lookup_lt_Some in Hk. lia.
    - auto. }
  destruct lbl as [h | l | l | inp | | k | n]; try (by apply Hfirst).
  - destruct (acceptor st) as [|pc|e] eqn:Ha; try (by apply Hfirst).
    injection Hstep as <-. simpl. destruct (Hagain l e eq_refl) as [H1 H2].
    split; [exact H1 | by intros _].
  - destruct (acceptor st) as [|pc|e] eqn:Ha; try (by apply Hfirst).
    injection Hstep as <-. simpl.
    destruct (Hagain (tls_NewListener l (TLSConfig (srv st))) e eq_refl) as [H1 H2].
    split; [exact H1 | by intros _].
Qed.

Lemma life_run_ok lbls base st st' :
  life_ok base st -> life_run time_Add lbls st = Some st' ->
  exists base', life_ok base' st'.
Proof.
  revert base st; induction lbls as [|lbl lbls IH]; simpl; intros base st HL Hrun.
  - injection Hrun as <-. eauto.
  - destruct (life_step time_Add lbl st) as [st1|] eqn:Hstep; [| discriminate].
    destruct (life_step_life_ok base lbl st st1 HL Hstep) as [HL1 _].
    by apply (IH _ st1 HL1).
Qed.

Lemma life_reachable_ok st :
  life_reachable time_Add st -> exists base, life_ok base st.
Proof.
  intros (s & lbls & Hrun). exact (life_run_ok lbls 0%nat (init s) st (init_life_ok s) Hrun).
Qed.

(** C1, as the code has it: when the blocking [Accept] fails, [serve]
    returns that very error to its caller, whatever the cause.  On a
    listener closed by a concurrent [Stop] the error is [ErrClosed], and it
    is returned like any other, not turned into nil. *)
Theorem serve_returns_accept_error st i (l : Listener TLSConfigT) inp err :
  crashed st = None -> acceptor st = Serving (AtAccept i) ->
  listener (srv st) = Some l ->
  Accept l (in_arrival inp) = Some err ->
  (if ln_closed l then err = ErrClosed else in_arrival inp = Some err) /\
  exists st',
    step time_Add (StepServe inp) st = Some st' /\
    acceptor st' = Returned (Some err) /\
    acceptor st' <> Returned None /\
    conns st' = conns st /\ workers st' = workers st.
Proof.
  intros Hc Ha Hl Hacc. split.
  - unfold Accept in Hacc. destruct (ln_closed l); congruence.
  - eexists. split.
    { unfold step. rewrite Hc, Ha. simpl. rewrite Hl, Hacc. reflexivity. }
    unfold serve_return, listener_Close, and_then. rewrite Hl. simpl. rewrite Hc. simpl.
    repeat split. discriminate.
Qed.

(** [serve] returns nil from one place only: the select that finds the
    channel closed. *)
Lemma serve_returns_nil_at_select st inp st' :
  step time_Add (StepServe inp) st = Some st' ->
  acceptor st' = Returned None ->
  acceptor st <> Returned None ->
  exists i, acceptor st = Serving (AtSelect i) /\ chDone (srv st) = true.
Proof.
  intros Hstep Hret Hnot. step_inv Hstep; try discriminate; try congruence; eauto.
Qed.

(** ** The new-connection hook *)

(** No statement of server.go reads [OnNewConnection]: a step does the same
    whatever the hook. *)
Lemma step_ignores_hook f lbl st :
  step time_Add lbl (with_hook f st) = with_hook f <$> step time_Add lbl st.
Proof.
  unfold step, with_hook; simpl.
  destruct (crashed st); [reflexivity |].
  destruct lbl as [h | l | l | inp | | k | n]; simpl.
  - unfold Handle; simpl. destruct (Handler (srv st)); reflexivity.
  - destruct (acceptor st); try reflexivity.
    unfold Serve, serve, Logger_Panicln, listener_Close, and_then; simpl.
    destruct (Handler (srv st)); simpl; [reflexivity |].
    destruct (crashed st); reflexivity.
  - destruct (acceptor st); try reflexivity.
    unfold ServeTLS, serve, Logger_Panicln, listener_Close, and_then; simpl.
    destruct (Handler (srv st)); simpl; [reflexivity |].
    destruct (crashed st); reflexivity.
  - destruct (acceptor st) as [|pc|]; try reflexivity.
    destruct pc; simpl; unfold serve_return, listener_Close, and_then; simpl.
    + destruct (chDone (srv st)); [| reflexivity].
      destruct (listener (srv st)); simpl; [| reflexivity].
      destruct (crashed st); reflexivity.
    + destruct (listener (srv st)) as [l|]; [| reflexivity].
      destruct (Accept l (in_arrival inp)); [| reflexivity].
      simpl. destruct (crashed st); reflexivity.
    + unfold log_accepted. destruct (in_remote inp); reflexivity.
    + unfold wg_Add1. simpl. destruct (wg_max <? wg (srv st) + 1); simpl; [reflexivity |].
      destruct (crashed st); reflexivity.
    + reflexivity.
  - reflexivity.
  - destruct (stoppers st !! k) as [pc|]; [| reflexivity].
    destruct pc; simpl; unfold listener_Close, and_then; simpl.
    + destruct (listener (srv st)); simpl; [| reflexivity].
      destruct (crashed st); reflexivity.
    + destruct (chDone (srv st)); reflexivity.
    + destruct (wg (srv st) =? 0); reflexivity.
    + reflexivity.
  - destruct (workers st !! n) as [w|]; [| reflexivity].
    destruct (w_done w); [reflexivity |].
    unfold worker_exit; simpl. destruct (wg (srv st) - 1 <? 0); reflexivity.
Qed.

Lemma run_ignores_hook f lbls st :
  run time_Add lbls (with_hook f st) = with_hook f <$> run time_Add lbls st.
Proof.
  revert st; induction lbls as [|lbl lbls IH]; intros st; simpl; [reflexivity |].
  rewrite step_ignores_hook. destruct (step time_Add lbl st); simpl; [apply IH | reflexivity].
Qed.

(** ** Stopping twice *)

(** C9, as the code has it: [Stop] has no guard.  A call of [Stop] on a
    server whose channel is already closed closes the listener again and
    then panics at line 127 with "close of closed channel", which ends the
    process: [Stop] is safe to call once. *)
Theorem stop_twice_panics st :
  reachable time_Add st -> crashed st = None -> chDone (srv st) = true ->
  exists st',
    run time_Add [CallStop; StepStop (length (stoppers st));
                  StepStop (length (stoppers st))] st = Some st' /\
    crashed st' = Some panic_close_closed /\
    forall lbl, step time_Add lbl st' = None.
Proof.
  intros Hre Hc Hd.
  destruct (inv_listener _ _ (reachable_Inv _ Hre)) as (l & Hl & Hcl); [by left |].
  eexists. split.
  { simpl. unfold step at 1. rewrite Hc.
    unfold step at 1; simpl. rewrite Hc.
    rewrite lookup_app_r by lia. rewrite Nat.sub_diag. simpl.
    unfold listener_Close, and_then; simpl. rewrite Hl; simpl. rewrite Hc.
    unfold step; simpl. rewrite Hc.
    rewrite list_lookup_insert_eq by (rewrite length_app; simpl; lia).
    simpl. rewrite Hd. reflexivity. }
  split; reflexivity.
Qed.

(** ** Ordinals *)

Lemma step_clients lbl st st' :
  step time_Add lbl st = Some st' -> clients st `prefix_of` clients st'.
Proof.
  intros Hstep. step_inv Hstep; try reflexivity; by apply prefix_app_r.
Qed.

(** ** Deadlines *)

Lemma alter_lookup_Some {A} (f : A -> A) (l : list A) i k c :
  l !! k = Some c ->
  exists c', alter f i l !! k = Some c' /\ (c' = c \/ c' = f c).
Proof.
  intros Hk. rewrite list_lookup_alter. case_decide as Hd.
  - subst i. rewrite Hk. simpl. eauto.
  - eauto.
Qed.

Lemma step_keeps_deadlines lbl st st' k c :
  Inv time_Add st -> step time_Add lbl st = Some st' ->
  (k < length (clients st))%nat -> conns st !! k = Some c ->
  (k < length (clients st'))%nat /\
  exists c', conns st' !! k = Some c' /\
    c_readDeadlines c' = c_readDeadlines c /\
    c_writeDeadlines c' = c_writeDeadlines c.
Proof.
  intros HI Hstep Hk Hc.
  pose proof (inv_acceptor _ _ HI) as Hacc. unfold acceptor_ok in Hacc.
  step_inv Hstep; rewrite ?length_app; simpl;
    try (split; [lia |]; eauto; fail);
    (split; [lia |]);
    first
      [ exists c; split; [by apply lookup_app_l_Some | auto]
      | destruct Hacc as (_ & -> & _); rewrite list_lookup_alter_ne by lia; eauto
      | match goal with
        | |- context [alter conn_Close ?i _] =>
            destruct (alter_lookup_Some conn_Close (conns st) i k c Hc)
              as (c' & -> & [-> | ->]); eauto
        end ].
Qed.

Lemma run_keeps_deadlines lbls st st' k c :
  Inv time_Add st -> run time_Add lbls st = Some st' ->
  (k < length (clients st))%nat -> conns st !! k = Some c ->
  exists c', conns st' !! k = Some c' /\
    c_readDeadlines c' = c_readDeadlines c /\
    c_writeDeadlines c' = c_writeDeadlines c.
Proof.
  revert st c; induction lbls as [|lbl lbls IH]; simpl; intros st c HI Hrun Hk Hc.
  - injection Hrun as <-. eauto.
  - destruct (step time_Add lbl st) as [st1|] eqn:Hstep; [| discriminate].
    destruct (step_keeps_deadlines _ _ _ _ _ HI Hstep Hk Hc) as (Hk1 & c1 & Hc1 & Hr & Hw).
    destruct (IH st1 c1 (step_Inv _ _ _ HI Hstep) Hrun Hk1 Hc1) as (c2 & Hc2 & Hr2 & Hw2).
    exists c2. split; [exact Hc2 |]. split; congruence.
Qed.

(** C8: the statement that follows a successful [Accept] sets the read
    deadline of the new connection to [time.Now().Add(ReadTimeout)] when
    [ReadTimeout] is not zero, and sets nothing when it is zero; the same for
    the write deadline; and no later statement of server.go sets a deadline
    of that connection again. *)
Theorem deadlines_set_once_at_accept st i rw inp st1 lbls st2 :
  reachable time_Add st ->
  acceptor st = Serving (AtNewConn i rw) ->
  step time_Add (StepServe inp) st = Some st1 ->
  run time_Add lbls st1 = Some st2 ->
  exists c, conns st2 !! rw = Some c /\
    c_readDeadlines c =
      (if ReadTimeout (srv st) =? 0 then []
       else [time_Add (in_now_read inp) (ReadTimeout (srv st))]) /\
    c_writeDeadlines c =
      (if WriteTimeout (srv st) =? 0 then []
       else [time_Add (in_now_write inp) (WriteTimeout (srv st))]).
Proof.
  intros Hre Ha Hstep Hrun.
  pose proof (reachable_Inv _ Hre) as HI.
  pose proof (inv_acceptor _ _ HI) as Hacc. unfold acceptor_ok in Hacc.
  rewrite Ha in Hacc. destruct Hacc as (_ & -> & Hlen & _ & Hnew).
  pose proof (step_Inv _ _ _ HI Hstep) as HI1.
  unfold step in Hstep. destruct (crashed st); [discriminate |].
  rewrite Ha in Hstep. injection Hstep as <-.
  destruct (run_keeps_deadlines lbls _ st2 (length (clients st))
              (set_deadlines time_Add (srv st) inp new_conn) HI1 Hrun)
    as (c & Hc & Hr & Hw).
  - simpl. unfold log_accepted. destruct (in_remote inp); simpl;
      rewrite length_app; simpl; lia.
  - simpl. unfold log_accepted. destruct (in_remote inp); simpl;
      rewrite list_lookup_alter_eq, Hnew; reflexivity.
  - exists c. split; [exact Hc |]. rewrite Hr, Hw. unfold set_deadlines.
    destruct (ReadTimeout (srv st) =? 0), (WriteTimeout (srv st) =? 0); auto.
Qed.

(** ** The shutdown signal *)

Lemma signal_implies_closed st :
  reachable time_Add st -> chDone (srv st) = true ->
  exists l, listener (srv st) = Some l /\ ln_closed l = true.
Proof. intros Hre Hd. apply (inv_listener _ _ (reachable_Inv _ Hre)). by left. Qed.




(** ** Waiting for the workers *)

(** The statements of [Stop] touch no worker and no connection. *)
Lemma stop_step_frame k st st' :
  step time_Add (StepStop k) st = Some st' ->
  workers st' = workers st /\ conns st' = conns st /\ clients st' = clients st.
Proof. intros Hstep. step_inv Hstep; auto. Qed.

Lemma step_counted lbl st st' :
  step time_Add lbl st = Some st' -> (counted st <= counted st')%nat.
Proof.
  intros Hstep. unfold counted.
  step_inv Hstep; rewrite ?length_app, ?length_insert; simpl;
    repeat match goal with |- context [match ?a with _ => _ end] => destruct a end;
    lia.
Qed.

Lemma step_worker_done lbl st st' n w :
  step time_Add lbl st = Some st' ->
  workers st !! n = Some w -> w_done w = true ->
  exists w', workers st' !! n = Some w' /\ w_done w' = true /\ w_cli w' = w_cli w.
Proof.
  intros Hstep Hn Hd.
  step_inv Hstep; eauto.
  - exists w. split; [by apply lookup_app_l_Some | auto].
  - rewrite list_lookup_insert_ne by congruence. eauto.
  - rewrite list_lookup_insert_ne by congruence. eauto.
Qed.

Lemma run_worker_done lbls st st' n w :
  run time_Add lbls st = Some st' ->
  workers st !! n = Some w -> w_done w = true ->
  exists w', workers st' !! n = Some w' /\ w_done w' = true /\ w_cli w' = w_cli w.
Proof.
  revert st w; induction lbls as [|lbl lbls IH]; simpl; intros st w Hrun Hn Hd.
  - injection Hrun as <-. eauto.
  - destruct (step time_Add lbl st) as [st1|] eqn:Hstep; [| discriminate].
    destruct (step_worker_done _ _ _ _ _ Hstep Hn Hd) as (w1 & Hn1 & Hd1 & Hc1).
    destruct (IH st1 w1 Hrun Hn1 Hd1) as (w2 & Hn2 & Hd2 & Hc2).
    exists w2. split; [exact Hn2 |]. split; [exact Hd2 | congruence].
Qed.

(** With the counter at zero, every counted client has a goroutine, and it
    has returned. *)
Lemma drained st n :
  Inv time_Add st -> wg (srv st) = 0 -> (n < counted st)%nat ->
  exists w, workers st !! n = Some w /\ w_cli w = n /\ w_done w = true.
Proof.
  intros HI Hz Hn. pose proof (inv_wg _ _ HI) as Hwg.
  pose proof (live_nonneg (workers st)) as Hl.
  assert (Hp : pending (acceptor st) = 0 /\ live (workers st) = 0).
  { destruct (acceptor st) as [|[]|]; simpl in *; lia. }
  destruct Hp as [Hp Hl0].
  assert (Hc : counted st = length (workers st)).
  { unfold counted. destruct (acceptor st) as [|[]|]; simpl in *; auto; lia. }
  destruct (lookup_lt_is_Some_2 (workers st) n) as [w Hw]; [lia |].
  exists w. split; [exact Hw |]. split.
  - by apply (inv_workers _ _ HI).
  - by apply live_zero_done with (workers st) n.
Qed.

(** Call [k] of [Stop] returns by its [wg.Wait] only, and only with the
    counter at zero. *)
Lemma stop_returns_drained lbl st st' k :
  step time_Add lbl st = Some st' ->
  stoppers st !! k <> Some StopReturned ->
  stoppers st' !! k = Some StopReturned ->
  lbl = StepStop k /\ stoppers st !! k = Some AtWait /\ wg (srv st) = 0.
Proof.
  intros Hstep Hnot Hret.
  step_inv Hstep; try congruence.
  - apply lookup_app_Some in Hret as [Hret | [_ Hret]]; [congruence |].
    apply list_lookup_singleton_Some in Hret as [_ Hret]. discriminate.
  - apply list_lookup_insert_Some in Hret as [(_ & Hret & _) | [_ Hret]];
      [discriminate | congruence].
  - apply list_lookup_insert_Some in Hret as [(_ & Hret & _) | [_ Hret]];
      [discriminate | congruence].
  - apply list_lookup_insert_Some in Hret as [(-> & _ & _) | [_ Hret]]; [| congruence].
    repeat split; auto. by apply Z.eqb_eq.
Qed.

(** C3: when call [k] of [Stop] has returned, its [wg.Wait] was passed at a
    moment when the counter was zero, and every client that line 98 had
    counted before the call returned (so every one counted before [Stop] was
    called) has a goroutine that has returned.  The statements of [Stop]
    change no worker and no connection. *)
Theorem stop_waits_for_workers st1 k post st2 n :
  reachable time_Add st1 ->
  stoppers st1 !! k <> Some StopReturned ->
  run time_Add post st1 = Some st2 ->
  stoppers st2 !! k = Some StopReturned ->
  (n < counted st1)%nat ->
  (exists post1 post2 stw stw',
      post = post1 ++ StepStop k :: post2 /\
      run time_Add post1 st1 = Some stw /\
      stoppers stw !! k = Some AtWait /\ wg (srv stw) = 0 /\
      step time_Add (StepStop k) stw = Some stw' /\
      workers stw' = workers stw /\ conns stw' = conns stw /\
      run time_Add post2 stw' = Some st2) /\
  (exists w, workers st2 !! n = Some w /\ w_cli w = n /\ w_done w = true) /\
  (forall j (sa sb : StateT), step time_Add (StepStop j) sa = Some sb ->
      workers sb = workers sa /\ conns sb = conns sa).
Proof.
  intros Hre Hnot Hrun Hret Hn.
  pose proof (reachable_Inv _ Hre) as HI. clear Hre.
  split; [| split].
  - revert st1 HI Hnot Hrun Hn. induction post as [|lbl post IH]; simpl;
      intros st1 HI Hnot Hrun Hn.
    + injection Hrun as <-. contradiction.
    + destruct (step time_Add lbl st1) as [sx|] eqn:Hstep; [| discriminate].
      destruct (decide (stoppers sx !! k = Some StopReturned)) as [Hsx | Hsx].
      * destruct (stop_returns_drained _ _ _ _ Hstep Hnot Hsx) as (-> & Hw & Hz).
        destruct (stop_step_frame _ _ _ Hstep) as (Ew & Ec & _).
        exists [], post, st1, sx. simpl. repeat split; auto.
      * destruct (IH sx (step_Inv _ _ _ HI Hstep) Hsx Hrun)
          as (p1 & p2 & stw & stw' & -> & Hr1 & Hr); [| ].
        { pose proof (step_counted _ _ _ Hstep). lia. }
        exists (lbl :: p1), p2, stw, stw'. simpl. rewrite Hstep.
        split; [reflexivity |]. split; [exact Hr1 | exact Hr].
  - revert st1 HI Hnot Hrun Hn. induction post as [|lbl post IH]; simpl;
      intros st1 HI Hnot Hrun Hn.
    + injection Hrun as <-. contradiction.
    + destruct (step time_Add lbl st1) as [sx|] eqn:Hstep; [| discriminate].
      destruct (decide (stoppers sx !! k = Some StopReturned)) as [Hsx | Hsx].
      * destruct (stop_returns_drained _ _ _ _ Hstep Hnot Hsx) as (-> & Hw & Hz).
        destruct (drained st1 n HI Hz Hn) as (w & Hw1 & Hw2 & Hw3).
        destruct (run_worker_done (StepStop k :: post) st1 st2 n w) as (w' & ? & ? & ?);
          auto.
        { simpl. by rewrite Hstep. }
        exists w'. split; [auto |]. split; [congruence | auto].
      * apply (IH sx (step_Inv _ _ _ HI Hstep) Hsx Hrun).
        pose proof (step_counted _ _ _ Hstep). lia.
  - intros j sa sb Hstep. destruct (stop_step_frame _ _ _ Hstep) as (? & ? & _). auto.
Qed.
(** ** Further properties of server.go *)

(** *** Registration, then serving *)

(** X1: on a server with no handler and not yet served, [Handle(h)]
    followed by [Serve(l)] enters the loop on [l], counter at 0, when [h] is
    not nil; when [h] is nil the registration changes nothing and [Serve]
    panics with "No LDAP Request Handler defined", [l] being closed by the
    deferred call. *)
Theorem handle_then_serve st (h : option HandlerI) (l : Listener TLSConfigT) :
  crashed st = None -> acceptor st = NotStarted -> Handler (srv st) = None ->
  exists st',
    run time_Add [CallHandle h; CallServe l] st = Some st' /\
    Handler (srv st') = h /\
    conns st' = conns st /\
    match h with
    | Some _ =>
        crashed st' = None /\ acceptor st' = Serving (AtSelect 0) /\
        listener (srv st') = Some l
    | None =>
        crashed st' = Some panic_no_handler /\ acceptor st' = NotStarted /\
        listener (srv st') = Some (Close l)
    end.
Proof.
  intros Hc Ha Hh. eexists. split.
  { simpl. unfold step at 1. rewrite Hc. unfold Handle. rewrite Hh.
    unfold step. simpl. rewrite Hc, Ha. reflexivity. }
  unfold Serve, serve, Logger_Panicln, listener_Close, and_then. simpl.
  destruct h; simpl; rewrite ?Hc; simpl; auto.
Qed.

(** *** What a return of [serve] leaves *)

Lemma step_bound lbl st st' :
  (acceptor st <> NotStarted -> is_Some (listener (srv st))) /\
  (forall e, acceptor st = Returned e ->
     exists l, listener (srv st) = Some l /\ ln_closed l = true) /\
  (acceptor st = Returned None -> chDone (srv st) = true) ->
  step time_Add lbl st = Some st' ->
  (acceptor st' <> NotStarted -> is_Some (listener (srv st'))) /\
  (forall e, acceptor st' = Returned e ->
     exists l, listener (srv st') = Some l /\ ln_closed l = true) /\
  (acceptor st' = Returned None -> chDone (srv st') = true).
Proof.
  intros (H1 & H2 & H3) Hstep.
  step_inv Hstep;
    (split; [| split]);
    try (intros; congruence);
    try (intros; eauto; fail);
    try (intros; discriminate);
    try match goal with
        | H : listener (srv ?s) = _ |- context [listener (srv ?s)] => rewrite H
        end;
    eauto.
Qed.

Lemma reachable_bound st :
  reachable time_Add st ->
  (acceptor st <> NotStarted -> is_Some (listener (srv st))) /\
  (forall e, acceptor st = Returned e ->
     exists l, listener (srv st) = Some l /\ ln_closed l = true) /\
  (acceptor st = Returned None -> chDone (srv st) = true).
Proof.
  intros (s & lbls & Hrun).
  assert (H0 : (acceptor (init s : StateT) <> NotStarted ->
                is_Some (listener (srv (init s : StateT)))) /\
               (forall e, acceptor (init s : StateT) = Returned e ->
                  exists l, listener (srv (init s : StateT)) = Some l /\
                            ln_closed l = true) /\
               (acceptor (init s : StateT) = Returned None ->
                chDone (srv (init s : StateT)) = true)).
  { simpl. repeat split; intros; congruence. }
  revert Hrun H0. generalize (init s : StateT) as st0.
  induction lbls as [|lbl lbls IH]; simpl; intros st0 Hrun H0.
  - by injection Hrun as <-.
  - destruct (step time_Add lbl st0) as [st1|] eqn:Hstep; [| discriminate].
    apply (IH st1 Hrun). by apply (step_bound lbl st0).
Qed.

(** X2: whenever [serve] has returned, with nil or with an error, the
    listener it served on is closed: the deferred call of line 62 has run. *)
Theorem returned_serve_closed_listener st e :
  reachable time_Add st -> acceptor st = Returned e ->
  exists l, listener (srv st) = Some l /\ ln_closed l = true.
Proof. intros Hre Ha. by apply (reachable_bound st Hre) with e. Qed.

Lemma past_signal_insert (sp : list StopPc) k old new :
  sp !! k = Some old ->
  (old <> AtClose -> old <> AtSignal -> new <> AtClose /\ new <> AtSignal) ->
  (exists k0 pc0, sp !! k0 = Some pc0 /\ pc0 <> AtClose /\ pc0 <> AtSignal) ->
  exists k0 pc0, <[k:=new]> sp !! k0 = Some pc0 /\ pc0 <> AtClose /\ pc0 <> AtSignal.
Proof.
  intros Hk Hnew (k0 & pc0 & Hk0 & Hc & Hs).
  destruct (decide (k = k0)) as [-> | Hne].
  - exists k0, new. rewrite list_lookup_insert_eq by (eapply lookup_lt_Some; eauto).
    split; [reflexivity |]. apply Hnew; congruence.
  - exists k0, pc0. by rewrite list_lookup_insert_ne.
Qed.

Lemma step_signalled lbl st st' :
  (chDone (srv st) = true ->
   exists k pc, stoppers st !! k = Some pc /\ pc <> AtClose /\ pc <> AtSignal) ->
  step time_Add lbl st = Some st' ->
  chDone (srv st') = true ->
  exists k pc, stoppers st' !! k = Some pc /\ pc <> AtClose /\ pc <> AtSignal.
Proof.
  intros HP Hstep. unfold step in Hstep.
  destruct (crashed st) eqn:Hcr; [discriminate |].
  destruct lbl as [h | l | l | inp | | k | n].
  - step_inv Hstep; auto; congruence.
  - step_inv Hstep; auto; congruence.
  - step_inv Hstep; auto; congruence.
  - step_inv Hstep; auto; congruence.
  - injection Hstep as <-. simpl. intros Hd.
    destruct (HP Hd) as (k & pc & Hk & Hpc). exists k, pc.
    split; [by apply lookup_app_l_Some | exact Hpc].
  - destruct (stoppers st !! k) as [pc|] eqn:Hk; [| discriminate].
    assert (Hlt : (k < length (stoppers st))%nat) by (eapply lookup_lt_Some; eauto).
    destruct pc; simpl in Hstep.
    + injection Hstep as <-. unfold listener_Close, and_then.
      destruct (listener (srv st)); simpl; rewrite ?Hcr; simpl; auto.
      intros Hd. apply past_signal_insert with AtClose; auto; congruence.
    + destruct (chDone (srv st)) eqn:Hd0; injection Hstep as <-; simpl; auto.
      intros _. exists k, AtWait. rewrite list_lookup_insert_eq by exact Hlt.
      repeat split; discriminate.
    + destruct (wg (srv st) =? 0); [| discriminate]. injection Hstep as <-. simpl.
      intros Hd. apply past_signal_insert with AtWait; auto.
    + discriminate.
  - step_inv Hstep; auto; congruence.
Qed.

Lemma reachable_signalled st :
  reachable time_Add st -> chDone (srv st) = true ->
  exists k pc, stoppers st !! k = Some pc /\ pc <> AtClose /\ pc <> AtSignal.
Proof.
  intros (s & lbls & Hrun).
  assert (H0 : chDone (srv (init s : StateT)) = true ->
               exists k pc, stoppers (init s : StateT) !! k = Some pc /\
                            pc <> AtClose /\ pc <> AtSignal) by discriminate.
  revert Hrun H0. generalize (init s : StateT) as st0.
  induction lbls as [|lbl lbls IH]; simpl; intros st0 Hrun H0.
  - by injection Hrun as <-.
  - destruct (step time_Add lbl st0) as [st1|] eqn:Hstep; [| discriminate].
    apply (IH st1 Hrun). by apply (step_signalled lbl st0).
Qed.

(** X3: [serve] returns nil only after [Stop] has closed the channel: a nil
    result means that the shutdown signal is set, so that some call of
    [Stop] has passed its line 127. *)
Theorem nil_return_means_signalled st :
  reachable time_Add st -> acceptor st = Returned None ->
  chDone (srv st) = true /\
  exists k pc, stoppers st !! k = Some pc /\ pc <> AtClose /\ pc <> AtSignal.
Proof.
  intros Hre Ha.
  assert (Hd : chDone (srv st) = true) by by apply (reachable_bound st Hre).
  split; [exact Hd | by apply reachable_signalled].
Qed.

(** *** [Stop] on a server that was never bound *)

(** X5: before [Serve] or [ServeTLS] was called the listener is nil, and a
    call of [Stop] panics at line 126 on the nil listener; the channel is
    left open. *)
Theorem stop_before_serve_panics st :
  reachable time_Add st -> crashed st = None -> acceptor st = NotStarted ->
  exists st',
    run time_Add [CallStop; StepStop (length (stoppers st))] st = Some st' /\
    crashed st' = Some panic_nil_listener /\
    chDone (srv st') = false /\
    listener (srv st') = None.
Proof.
  intros Hre Hc Ha.
  pose proof (reachable_Inv _ Hre) as HI.
  pose proof (inv_acceptor _ _ HI) as Hacc. unfold acceptor_ok in Hacc.
  rewrite Ha in Hacc. destruct Hacc as (_ & _ & _ & Hnone). specialize (Hnone Hc).
  assert (Hd : chDone (srv st) = false).
  { destruct (chDone (srv st)) eqn:Hd; [| reflexivity].
    destruct (inv_listener _ _ HI) as (l & Hl & _); [by left | congruence]. }
  eexists. split.
  { simpl. unfold step at 1. rewrite Hc.
    unfold step; simpl. rewrite Hc.
    rewrite lookup_app_r by lia. rewrite Nat.sub_diag. simpl.
    unfold listener_Close, and_then; simpl. rewrite Hnone. simpl. reflexivity. }
  simpl. auto.
Qed.

(** *** The loop after the signal *)






(** *** When [wg.Wait] passes *)

Lemma all_done_live (ws : list Worker) :
  (forall n w, ws !! n = Some w -> w_done w = true) -> live ws = 0.
Proof.
  induction ws as [|w0 ws IH]; simpl; intros Hall; [reflexivity |].
  rewrite (Hall 0%nat w0 eq_refl). rewrite IH; [reflexivity |].
  intros n w Hn. apply (Hall (S n) w Hn).
Qed.

(** X7: the [wg.Wait] of a call of [Stop] passes exactly when every
    goroutine started at line 99 has returned and no client counted at line
    98 is still waiting for its goroutine to start; otherwise it blocks. *)
Theorem wait_passes_iff_drained st k :
  reachable time_Add st -> crashed st = None -> stoppers st !! k = Some AtWait ->
  is_Some (step time_Add (StepStop k) st) <->
  pending (acceptor st) = 0 /\
  forall n w, workers st !! n = Some w -> w_done w = true.
Proof.
  intros Hre Hc Hk.
  pose proof (inv_wg _ _ (reachable_Inv _ Hre)) as Hwg.
  pose proof (live_nonneg (workers st)) as Hl.
  assert (Hp : 0 <= pending (acceptor st)).
  { destruct (acceptor st) as [|[]|]; simpl; lia. }
  unfold step. rewrite Hc, Hk. simpl.
  destruct (Z.eqb_spec (wg (srv st)) 0) as [Hz | Hnz]; split.
  - intros _. split; [lia |]. intros n w Hn.
    apply live_zero_done with (workers st) n; [lia | exact Hn].
  - intros _. eauto.
  - intros [x Hx]. discriminate.
  - intros [Hp0 Hall]. exfalso. apply Hnz.
    rewrite Hwg, Hp0, (all_done_live _ Hall). reflexivity.
Qed.

(** *** What the run never changes *)

Lemma step_listener_kept lbl st st' (l : Listener TLSConfigT) :
  Inv time_Add st -> listener (srv st) = Some l ->
  step time_Add lbl st = Some st' ->
  exists l', listener (srv st') = Some l' /\ ln_kind l' = ln_kind l /\
             (ln_closed l = true -> ln_closed l' = true).
Proof.
  intros HI Hl Hstep.
  pose proof (inv_acceptor _ _ HI) as Hacc. unfold acceptor_ok in Hacc.
  step_inv Hstep;
    try (destruct Hacc as (_ & _ & _ & Hnone); specialize (Hnone eq_refl); congruence);
    simplify_eq;
    (eexists; split; [first [reflexivity | eassumption] |]; split; [reflexivity | auto]).
Qed.

Lemma run_listener_kept lbls st st' (l : Listener TLSConfigT) :
  Inv time_Add st -> listener (srv st) = Some l ->
  run time_Add lbls st = Some st' ->
  exists l', listener (srv st') = Some l' /\ ln_kind l' = ln_kind l /\
             (ln_closed l = true -> ln_closed l' = true).
Proof.
  revert st l; induction lbls as [|lbl lbls IH]; simpl; intros st l HI Hl Hrun.
  - injection Hrun as <-. eauto.
  - destruct (step time_Add lbl st) as [st1|] eqn:Hstep; [| discriminate].
    destruct (step_listener_kept _ _ _ _ HI Hl Hstep) as (l1 & Hl1 & Hk1 & Hc1).
    destruct (IH st1 l1 (step_Inv _ _ _ HI Hstep) Hl1 Hrun) as (l2 & Hl2 & Hk2 & Hc2).
    exists l2. split; [exact Hl2 |]. split; [congruence | auto].
Qed.

Lemma run_config lbls st st' :
  run time_Add lbls st = Some st' ->
  TLSConfig (srv st') = TLSConfig (srv st) /\
  ReadTimeout (srv st') = ReadTimeout (srv st) /\
  WriteTimeout (srv st') = WriteTimeout (srv st) /\
  OnNewConnection (srv st') = OnNewConnection (srv st).
Proof.
  revert st; induction lbls as [|lbl lbls IH]; simpl; intros st Hrun.
  - by injection Hrun as <-.
  - destruct (step time_Add lbl st) as [st1|] eqn:Hstep; [| discriminate].
    destruct (IH st1 Hrun) as (B1 & B2 & B3 & B4).
    assert (Hcfg : TLSConfig (srv st1) = TLSConfig (srv st) /\
                   ReadTimeout (srv st1) = ReadTimeout (srv st) /\
                   WriteTimeout (srv st1) = WriteTimeout (srv st) /\
                   OnNewConnection (srv st1) = OnNewConnection (srv st)).
    { clear -Hstep. step_inv Hstep; auto. }
    destruct Hcfg as (A1 & A2 & A3 & A4). repeat split; congruence.
Qed.

(** X11: with a handler registered, [ServeTLS(l)] binds the listener that
    [tls.NewListener] builds from [l] and the [TLSConfig] of the server at
    the call, and [Serve(l)] binds [l] as it is; the loop then serves on a
    listener of that kind for the whole run. *)
Theorem serve_binds_its_listener st (l : Listener TLSConfigT) (tls : bool) st1 lbls st2 :
  reachable time_Add st -> Handler (srv st) <> None ->
  step time_Add (if tls then CallServeTLS l else CallServe l) st = Some st1 ->
  run time_Add lbls st1 = Some st2 ->
  acceptor st1 = Serving (AtSelect 0) /\
  listener (srv st1) =
    Some (if tls then tls_NewListener l (TLSConfig (srv st)) else l) /\
  exists l2, listener (srv st2) = Some l2 /\
    ln_kind l2 = (if tls then TLSListener (TLSConfig (srv st)) else ln_kind l).
Proof.
  intros Hre Hh Hstep Hrun.
  assert (HI1 : Inv time_Add st1).
  { apply reachable_Inv. apply (reachable_run [if tls then CallServeTLS l else CallServe l] st);
      [exact Hre |]. simpl. by rewrite Hstep. }
  assert (H1 : acceptor st1 = Serving (AtSelect 0) /\
               listener (srv st1) =
                 Some (if tls then tls_NewListener l (TLSConfig (srv st)) else l)).
  { clear -Hstep Hh. destruct tls; step_inv Hstep; auto; congruence. }
  destruct H1 as [Ha Hl]. split; [exact Ha |]. split; [exact Hl |].
  destruct (run_listener_kept lbls st1 st2 _ HI1 Hl Hrun) as (l2 & Hl2 & Hk & _).
  exists l2. split; [exact Hl2 |]. rewrite Hk. by destruct tls.
Qed.

(** X13: the counter of the wait group is the number of goroutines started
    at line 99 that have not returned, plus one while a client counted at
    line 98 waits for line 99; so the [wg.Done] of a returning worker never
    finds the counter at zero and never panics. *)
Theorem wait_group_counts_live_workers st n w :
  reachable time_Add st -> crashed st = None ->
  workers st !! n = Some w -> w_done w = false ->
  wg (srv st) = live (workers st) + pending (acceptor st) /\
  1 <= wg (srv st) /\
  exists st',
    step time_Add (WorkerExit n) st = Some st' /\
    crashed st' = None /\
    wg (srv st') = wg (srv st) - 1.
Proof.
  intros Hre Hc Hn Hd.
  pose proof (inv_wg _ _ (reachable_Inv _ Hre)) as Hwg.
  pose proof (live_exit _ _ _ Hn Hd) as Hlive.
  pose proof (live_nonneg (<[n:={| w_cli := w_cli w; w_done := true |}]> (workers st))) as Hnn.
  assert (Hp : 0 <= pending (acceptor st)).
  { destruct (acceptor st) as [|[]|]; simpl; lia. }
  split; [exact Hwg |]. split; [lia |].
  eexists. split.
  { unfold step. rewrite Hc, Hn, Hd. reflexivity. }
  unfold worker_exit. simpl.
  destruct (Z.ltb_spec (wg (srv st) - 1) 0) as [Hneg | Hpos]; [lia |].
  simpl. auto.
Qed.

(** X9: no statement of server.go closes an accepted connection: in every
    state reached without a worker having returned, whatever [Handle],
    [Serve], [ServeTLS], the loop and [Stop] did, every accepted connection
    is open. *)
Theorem only_workers_close_connections s lbls st k c :
  run time_Add lbls (init s) = Some st ->
  Forall (fun lbl : LabelT => forall n, lbl <> WorkerExit n) lbls ->
  conns st !! k = Some c -> c_closed c = false.
Proof.
  intros Hrun Hall.
  assert (H0 : forall k c, conns (init s : StateT) !! k = Some c -> c_closed c = false).
  { intros k0 c0 Hk0. simpl in Hk0. rewrite lookup_nil in Hk0. discriminate. }
  revert k c. revert Hrun H0. generalize (init s : StateT) as st0.
  induction Hall as [|lbl lbls Hlbl Hall IH]; simpl; intros st0 Hrun H0.
  - by injection Hrun as <-.
  - destruct (step time_Add lbl st0) as [st1|] eqn:Hstep; [| discriminate].
    apply (IH st1 Hrun). clear IH Hrun Hall.
    intros k c Hk. revert Hk.
    step_inv Hstep; intros Hk; eauto; try (exfalso; eapply Hlbl; reflexivity);
      first
        [ apply lookup_app_Some in Hk as [Hk | [_ Hk]]; [eauto |];
          apply list_lookup_singleton_Some in Hk as [_ <-]; reflexivity
        | rewrite list_lookup_alter in Hk; case_decide as Hd; [| eauto]; subst;
          apply fmap_Some in Hk as (c0 & Hc0 & ->);
          unfold set_deadlines;
          destruct (ReadTimeout (srv st0) =? 0), (WriteTimeout (srv st0) =? 0);
          simpl; eauto ].
Qed.

(** X10: the hook is never consulted: a run from a server configured with
    any hook is, statement by statement, the run from the same server
    without it; the hook changes nothing but its own field. *)
Theorem hook_never_consulted (f : option (nat -> option error)) s lbls :
  run time_Add lbls (init (set_OnNewConnection f s)) =
  with_hook f <$> run time_Add lbls (init s).
Proof. apply (run_ignores_hook f lbls (init s)). Qed.

(** ** Served again *)

Lemma life_step_clients lbl st st' :
  life_step time_Add lbl st = Some st' -> clients st `prefix_of` clients st'.
Proof.
  intros Hstep. unfold life_step in Hstep.
  destruct (crashed st) eqn:Hc; [by apply step_clients with lbl |].
  destruct lbl; try (by eapply step_clients);
    (destruct (acceptor st) eqn:Ha; try (by eapply step_clients);
     injection Hstep as <-;
     unfold Serve, ServeTLS, serve, Logger_Panicln, listener_Close, and_then; simpl;
     destruct (Handler (srv st)); simpl; rewrite ?Hc; reflexivity).
Qed.

Lemma life_run_clients lbls st st' :
  life_run time_Add lbls st = Some st' -> clients st `prefix_of` clients st'.
Proof.
  revert st; induction lbls as [|lbl lbls IH]; simpl; intros st Hrun.
  - by injection Hrun as <-.
  - destruct (life_step time_Add lbl st) as [st1|] eqn:Hstep; [| discriminate].
    etrans; [by eapply life_step_clients | by apply IH].
Qed.

Lemma life_run_same_call lbls base st st' :
  life_ok base st -> life_run time_Add lbls st = Some st' ->
  Forall (fun lbl : LabelT => is_serve_call lbl = false) lbls ->
  life_ok base st'.
Proof.
  intros HL Hrun Hall. revert st HL Hrun.
  induction Hall as [|lbl lbls Hlbl Hall IH]; simpl; intros st HL Hrun.
  - by injection Hrun as <-.
  - destruct (life_step time_Add lbl st) as [st1|] eqn:Hstep; [| discriminate].
    apply (IH st1); [| exact Hrun].
    destruct (life_step_life_ok base lbl st st1 HL Hstep) as [HL1 _].
    by rewrite Hlbl in HL1.
Qed.

(** C4, as the code has it: the counter [i] is a local of [serve].  Within
    one call of [Serve] or [ServeTLS], as long as the call built fewer than
    2^63 clients, the j-th client it builds (from 0) is the one of the j-th
    connection it accepted and its [Numero] is j+1: the ordinals of a call
    start at 1 and grow strictly in the order of acceptance, and an ordinal
    once assigned stays for the rest of the lifetime.  A later call on the
    same server is a call like any other: it counts from 1 again. *)
Theorem numero_counts_within_a_call
    st0 (l : Listener TLSConfigT) (tls : bool) st1 lbls st j k cj ck lbls' st' :
  life_reachable time_Add st0 ->
  life_step time_Add (if tls then CallServeTLS l else CallServe l) st0 = Some st1 ->
  life_run time_Add lbls st1 = Some st ->
  Forall (fun lbl : LabelT => is_serve_call lbl = false) lbls ->
  Z.of_nat (length (clients st) - length (clients st0)) <= int_max ->
  clients st !! (length (clients st0) + j)%nat = Some cj ->
  clients st !! (length (clients st0) + k)%nat = Some ck ->
  (j < k)%nat ->
  life_run time_Add lbls' st = Some st' ->
  rwc cj = (length (clients st0) + j)%nat /\ Numero cj = Z.of_nat j + 1 /\
  rwc ck = (length (clients st0) + k)%nat /\ Numero ck = Z.of_nat k + 1 /\
  1 <= Numero cj < Numero ck /\
  clients st' !! (length (clients st0) + j)%nat = Some cj /\
  clients st' !! (length (clients st0) + k)%nat = Some ck.
Proof.
  intros Hre Hcall Hrun Hall Hmax Hj Hk Hjk Hrun'.
  destruct (life_reachable_ok _ Hre) as (base0 & HL0).
  destruct (life_step_life_ok base0 _ st0 st1 HL0 Hcall) as [HL1 _].
  assert (Hserve : is_serve_call
                     (if tls then CallServeTLS l else CallServe l : LabelT) = true)
    by by destruct tls.
  rewrite Hserve in HL1.
  pose proof (life_run_same_call lbls _ st1 st HL1 Hrun Hall) as (Hb & Hcl & _ & _).
  destruct (Hcl _ _ Hj) as [Hj1 Hj2]. destruct (Hcl _ _ Hk) as [Hk1 Hk2].
  specialize (Hj2 ltac:(lia)). specialize (Hk2 ltac:(lia)).
  pose proof (lookup_lt_Some _ _ _ Hk) as Hlen.
  assert (Hbig : 0 < 2 ^ 63) by lia.
  replace (length (clients st0) + j - length (clients st0))%nat with j in Hj2 by lia.
  replace (length (clients st0) + k - length (clients st0))%nat with k in Hk2 by lia.
  rewrite wrap_int_small in Hj2 by lia.
  rewrite wrap_int_small in Hk2 by lia.
  destruct (life_run_clients _ _ _ Hrun') as [ext ->].
  repeat split; auto; try lia; by apply lookup_app_l_Some.
Qed.


Lemma life_step_config lbl st st' :
  life_step time_Add lbl st = Some st' ->
  TLSConfig (srv st') = TLSConfig (srv st) /\
  ReadTimeout (srv st') = ReadTimeout (srv st) /\
  WriteTimeout (srv st') = WriteTimeout (srv st) /\
  OnNewConnection (srv st') = OnNewConnection (srv st).
Proof.
  intros Hstep.
  assert (Hfirst : forall sx, step time_Add lbl st = Some sx ->
            TLSConfig (srv sx) = TLSConfig (srv st) /\
            ReadTimeout (srv sx) = ReadTimeout (srv st) /\
            WriteTimeout (srv sx) = WriteTimeout (srv st) /\
            OnNewConnection (srv sx) = OnNewConnection (srv st)).
  { intros sx Hs. by apply (run_config [lbl] st sx); simpl; rewrite Hs. }
  unfold life_step in Hstep.
  destruct (crashed st) eqn:Hc; [by apply Hfirst |].
  destruct lbl; try (by apply Hfirst);
    (destruct (acceptor st) eqn:Ha; try (by apply Hfirst);
     injection Hstep as <-;
     unfold Serve, ServeTLS, serve, Logger_Panicln, listener_Close, and_then; simpl;
     destruct (Handler (srv st)); simpl; rewrite ?Hc; simpl; auto).
Qed.

Lemma life_run_config lbls st st' :
  life_run time_Add lbls st = Some st' ->
  TLSConfig (srv st') = TLSConfig (srv st) /\
  ReadTimeout (srv st') = ReadTimeout (srv st) /\
  WriteTimeout (srv st') = WriteTimeout (srv st) /\
  OnNewConnection (srv st') = OnNewConnection (srv st).
Proof.
  revert st; induction lbls as [|lbl lbls IH]; simpl; intros st Hrun.
  - by injection Hrun as <-.
  - destruct (life_step time_Add lbl st) as [st1|] eqn:Hstep; [| discriminate].
    destruct (IH st1 Hrun) as (B1 & B2 & B3 & B4).
    destruct (life_step_config _ _ _ Hstep) as (A1 & A2 & A3 & A4).
    repeat split; congruence.
Qed.

Lemma life_run_listener_between_calls lbls st st' (l : Listener TLSConfigT) :
  listener (srv st) = Some l -> life_run time_Add lbls st = Some st' ->
  Forall (fun lbl : LabelT => is_serve_call lbl = false) lbls ->
  exists l', listener (srv st') = Some l' /\ ln_kind l' = ln_kind l /\
             (ln_closed l = true -> ln_closed l' = true).
Proof.
  intros Hl Hrun Hall. revert st l Hl Hrun.
  induction Hall as [|lbl lbls Hlbl Hall IH]; simpl; intros st l Hl Hrun.
  - injection Hrun as <-. eauto.
  - destruct (life_step time_Add lbl st) as [st1|] eqn:Hstep; [| discriminate].
    rewrite (life_step_not_serve _ _ Hlbl) in Hstep.
    assert (H1 : exists l1, listener (srv st1) = Some l1 /\ ln_kind l1 = ln_kind l /\
                   (ln_closed l = true -> ln_closed l1 = true)).
    { clear -Hstep Hlbl Hl. destruct lbl; try discriminate;
        step_inv Hstep; simplify_eq;
        (eexists; split; [first [reflexivity | eassumption] |];
         split; [reflexivity | auto]). }
    destruct H1 as (l1 & Hl1 & Hk1 & Hc1).
    destruct (IH st1 l1 Hl1 Hrun) as (l2 & Hl2 & Hk2 & Hc2).
    exists l2. split; [exact Hl2 |]. split; [congruence | auto].
Qed.

(** X8: no statement of server.go writes the configuration: along the
    whole lifetime, later calls of [Serve] and [ServeTLS] included,
    [TLSConfig], the two timeouts and the hook keep their values.  The
    listener is rebound by [Serve] and [ServeTLS] only: along a run with no
    further call it stays the one that was bound (plain or TLS as it was)
    and, once closed, stays closed. *)
Theorem configuration_is_kept st (l : Listener TLSConfigT) lbls st1 lbls' st2 :
  listener (srv st) = Some l ->
  life_run time_Add lbls st = Some st1 ->
  Forall (fun lbl : LabelT => is_serve_call lbl = false) lbls ->
  life_run time_Add lbls' st1 = Some st2 ->
  (exists l1, listener (srv st1) = Some l1 /\ ln_kind l1 = ln_kind l /\
              (ln_closed l = true -> ln_closed l1 = true)) /\
  TLSConfig (srv st2) = TLSConfig (srv st) /\
  ReadTimeout (srv st2) = ReadTimeout (srv st) /\
  WriteTimeout (srv st2) = WriteTimeout (srv st) /\
  OnNewConnection (srv st2) = OnNewConnection (srv st).
Proof.
  intros Hl Hrun Hall Hrun'.
  split; [by apply (life_run_listener_between_calls lbls st st1 l) |].
  destruct (life_run_config _ _ _ Hrun) as (A1 & A2 & A3 & A4).
  destruct (life_run_config _ _ _ Hrun') as (B1 & B2 & B3 & B4).
  repeat split; congruence.
Qed.

(** X12: a call of [serve] returns between two iterations only: along the
    whole lifetime, whenever the loop has returned, every connection that
    [Accept] returned, in this call or an earlier one, has its client and the
    goroutine started for it; none is dropped. *)
Theorem returned_serve_dispatched_all st e k :
  life_reachable time_Add st -> acceptor st = Returned e ->
  (k < length (conns st))%nat ->
  exists cl w,
    clients st !! k = Some cl /\ rwc cl = k /\
    workers st !! k = Some w /\ w_cli w = k.
Proof.
  intros Hre Ha Hk.
  destruct (life_reachable_ok _ Hre) as (base & Hb & Hcl & Hwk & Hacc).
  rewrite Ha in Hacc. destruct Hacc as [Hc1 Hc2].
  destruct (lookup_lt_is_Some_2 (clients st) k) as [cl Hcl']; [lia |].
  destruct (lookup_lt_is_Some_2 (workers st) k) as [w Hw']; [lia |].
  exists cl, w. split; [exact Hcl' |]. split; [by apply Hcl |].
  split; [exact Hw' | by apply Hwk].
Qed.

End Properties.

(** * The properties on the concrete server *)

Lemma serve_without_handler_refuses_witness :
  exists st',
    step Z.add (CallServe plain_listener) (init bare_server) = Some st' /\
    crashed st' = Some panic_no_handler /\ conns st' = [].
Proof.
  destruct (serve_without_handler_refuses Z.add (init bare_server) plain_listener
              (CallServe plain_listener)) as (st' & Hs & Hc & Hall).
  - exists bare_server, []. reflexivity.
  - reflexivity.
  - reflexivity.
  - reflexivity.
  - left. reflexivity.
  - exists st'. split; [exact Hs |]. split; [exact Hc |].
    apply (Hall [] st' eq_refl).
Defined.

Lemma handle_twice_panics_witness :
  Handle (Some 2%nat) demo_server = inr panic_multiple_handlers /\
  Handler (srv (after [CallServe plain_listener] demo_server)) = Some 1%nat.
Proof.
  destruct (handle_twice_panics Z.add (init demo_server) 1%nat (Some 2%nat))
    as (H1 & _ & H3).
  - reflexivity.
  - reflexivity.
  - split; [exact H1 |]. apply (H3 [CallServe plain_listener]). reflexivity.
Defined.

Ltac run_it := vm_compute; first [reflexivity | discriminate | lia].
Ltac run_all := repeat match goal with |- _ /\ _ => split end; run_it.

Lemma serve_returns_accept_error_witness :
  exists st',
    step Z.add (StepServe (arrival 5)) closed_under_accept = Some st' /\
    acceptor st' = Returned (Some ErrClosed).
Proof.
  destruct (serve_returns_accept_error Z.add closed_under_accept 0
              (Close plain_listener) (arrival 5) ErrClosed)
    as (_ & st' & Hs & Ha & _); try run_it.
  exists st'. split; [exact Hs | exact Ha].
Defined.

(** C1 as stated fails: [Stop] closes the listener while the loop is about
    to accept; the accept fails with [ErrClosed] and [serve] returns that
    error, not nil. *)
Lemma serve_closed_accept_returns_error :
  exists st',
    run Z.add [CallServe plain_listener; StepServe (arrival 0); CallStop; StepStop 0;
               StepServe (arrival 0)] (init demo_server) = Some st' /\
    listener (srv st') = Some (Close plain_listener) /\
    acceptor st' = Returned (Some ErrClosed) /\
    acceptor st' <> Returned None.
Proof.
  exists (after [CallServe plain_listener; StepServe (arrival 0); CallStop; StepStop 0;
                 StepServe (arrival 0)] demo_server).
  run_all.
Qed.

(** C2: with a hook that rejects every connection, the first accepted
    connection is not closed; its client gets ordinal 1, is counted, and its
    goroutine is started. *)
Theorem rejecting_hook_is_not_called :
  rejecting_hook 0%nat = Some (ErrOther "rejected") /\
  exists st',
    run Z.add (CallServe plain_listener :: accept_one 7) (init hooked_server) = Some st' /\
    OnNewConnection (srv st') = Some rejecting_hook /\
    conns st' = [new_conn] /\
    clients st' = [{| rwc := 0; br := 0; bw := 0; Numero := 1 |}] /\
    workers st' = [{| w_cli := 0; w_done := false |}] /\
    wg (srv st') = 1 /\
    acceptor st' = Serving (AtSelect 1).
Proof.
  split; [reflexivity |].
  exists (after (CallServe plain_listener :: accept_one 7) hooked_server).
  run_all.
Qed.

Lemma stop_twice_panics_witness :
  exists st',
    run Z.add [CallStop; StepStop 1; StepStop 1] stopped_once = Some st' /\
    crashed st' = Some panic_close_closed.
Proof.
  destruct (stop_twice_panics Z.add stopped_once) as (st' & Hr & Hc & _).
  - exists demo_server, (CallServe plain_listener :: stop_call 0). run_it.
  - run_it.
  - run_it.
  - exists st'. split; [exact Hr | exact Hc].
Defined.

(** C9 as stated fails: the second of two calls of [Stop] panics with
    "close of closed channel", which ends the process. *)
Lemma stop_twice_aborts :
  exists st',
    run Z.add [CallServe plain_listener; CallStop; StepStop 0; StepStop 0; StepStop 0;
               CallStop; StepStop 1; StepStop 1] (init demo_server) = Some st' /\
    stoppers st' !! 0%nat = Some StopReturned /\
    crashed st' = Some panic_close_closed /\
    crashed st' <> None.
Proof.
  exists (after [CallServe plain_listener; CallStop; StepStop 0; StepStop 0; StepStop 0;
                 CallStop; StepStop 1; StepStop 1] demo_server).
  run_all.
Qed.

Lemma deadlines_set_once_at_accept_witness :
  exists c,
    conns (after (CallServe plain_listener :: accept_one 1000) demo_server) !! 0%nat
      = Some c /\
    c_readDeadlines c = [50001000] /\ c_writeDeadlines c = [].
Proof.
  destruct (deadlines_set_once_at_accept Z.add first_accepted 0 0%nat (arrival 1000)
              (after [CallServe plain_listener; StepServe (arrival 0); StepServe (arrival 0);
                      StepServe (arrival 1000)] demo_server)
              [StepServe (arrival 1000); StepServe (arrival 1000)]
              (after (CallServe plain_listener :: accept_one 1000) demo_server))
    as (c & Hc & Hr & Hw).
  - exists demo_server,
      [CallServe plain_listener; StepServe (arrival 0); StepServe (arrival 0)].
    run_it.
  - run_it.
  - run_it.
  - run_it.
  - exists c. split; [exact Hc |]. split.
    + rewrite Hr. run_it.
    + rewrite Hw. run_it.
Defined.


Lemma stop_waits_for_workers_witness :
  exists w,
    workers (after (CallServe plain_listener :: accept_one 7 ++
                    [CallStop; StepStop 0; StepStop 0; WorkerExit 0; StepStop 0])
               demo_server) !! 0%nat = Some w /\
    w_cli w = 0%nat /\ w_done w = true.
Proof.
  destruct (stop_waits_for_workers Z.add
              (after (CallServe plain_listener :: accept_one 7) demo_server) 0%nat
              [CallStop; StepStop 0; StepStop 0; WorkerExit 0; StepStop 0]
              (after (CallServe plain_listener :: accept_one 7 ++
                      [CallStop; StepStop 0; StepStop 0; WorkerExit 0; StepStop 0])
                 demo_server) 0%nat)
    as (_ & Hw & _).
  - exists demo_server, (CallServe plain_listener :: accept_one 7). run_it.
  - run_it.
  - run_it.
  - run_it.
  - run_it.
  - exact Hw.
Defined.

(** * The further properties on the concrete server *)

Lemma handle_then_serve_witness :
  exists st',
    run Z.add [CallHandle (Some 1%nat); CallServe plain_listener] (init bare_server)
      = Some st' /\
    Handler (srv st') = Some 1%nat /\
    acceptor st' = Serving (AtSelect 0).
Proof.
  destruct (handle_then_serve Z.add (init bare_server) (Some 1%nat) plain_listener)
    as (st' & Hr & Hh & _ & _ & Ha & _); try run_it.
  exists st'. split; [exact Hr |]. split; [exact Hh | exact Ha].
Defined.

Lemma returned_serve_closed_listener_witness :
  exists l,
    listener (srv (after (CallServe plain_listener :: stop_call 0 ++ [StepServe (arrival 0)])
                     demo_server)) = Some l /\
    ln_closed l = true.
Proof.
  apply (returned_serve_closed_listener Z.add
           (after (CallServe plain_listener :: stop_call 0 ++ [StepServe (arrival 0)])
              demo_server) None).
  - exists demo_server, (CallServe plain_listener :: stop_call 0 ++ [StepServe (arrival 0)]).
    run_it.
  - run_it.
Defined.

Lemma nil_return_means_signalled_witness :
  chDone (srv (after (CallServe plain_listener :: stop_call 0 ++ [StepServe (arrival 0)])
                 demo_server)) = true.
Proof.
  apply (nil_return_means_signalled Z.add
           (after (CallServe plain_listener :: stop_call 0 ++ [StepServe (arrival 0)])
              demo_server)).
  - exists demo_server, (CallServe plain_listener :: stop_call 0 ++ [StepServe (arrival 0)]).
    run_it.
  - run_it.
Defined.

Lemma stop_before_serve_panics_witness :
  exists st',
    run Z.add [CallStop; StepStop 0] (init demo_server) = Some st' /\
    crashed st' = Some panic_nil_listener.
Proof.
  destruct (stop_before_serve_panics Z.add (init demo_server)) as (st' & Hr & Hc & _).
  - exists demo_server, []. run_it.
  - run_it.
  - run_it.
  - exists st'. split; [exact Hr | exact Hc].
Defined.

Lemma wait_passes_iff_drained_witness :
  step Z.add (StepStop 0)
    (after (CallServe plain_listener :: accept_one 7 ++ [CallStop; StepStop 0; StepStop 0])
       demo_server) = None.
Proof.
  destruct (wait_passes_iff_drained Z.add
              (after (CallServe plain_listener :: accept_one 7 ++
                      [CallStop; StepStop 0; StepStop 0]) demo_server) 0%nat)
    as [Hpass _].
  - exists demo_server,
      (CallServe plain_listener :: accept_one 7 ++ [CallStop; StepStop 0; StepStop 0]).
    run_it.
  - run_it.
  - run_it.
  - destruct (step Z.add (StepStop 0)
                (after (CallServe plain_listener :: accept_one 7 ++
                        [CallStop; StepStop 0; StepStop 0]) demo_server)) as [sx|] eqn:Hs;
      [| reflexivity].
    destruct (Hpass (mk_is_Some _ _ eq_refl)) as [_ Hall].
    specialize (Hall 0%nat {| w_cli := 0; w_done := false |}).
    exfalso. assert (false = true) as Habs; [| discriminate Habs].
    apply Hall. run_it.
Defined.

Lemma only_workers_close_connections_witness :
  c_closed {| c_readDeadlines := [50000001]; c_writeDeadlines := []; c_closed := false |}
  = false.
Proof.
  apply (only_workers_close_connections Z.add demo_server
           (CallServe plain_listener :: accept_one 1)
           (after (CallServe plain_listener :: accept_one 1) demo_server) 0%nat).
  - run_it.
  - repeat constructor; intros n; discriminate.
  - run_it.
Defined.

Lemma serve_binds_its_listener_witness :
  exists l2,
    listener (srv (after [CallServeTLS plain_listener; StepServe (arrival 0)] demo_server))
      = Some l2 /\
    ln_kind l2 = TLSListener None.
Proof.
  destruct (serve_binds_its_listener Z.add (init demo_server) plain_listener true
              (after [CallServeTLS plain_listener] demo_server)
              [StepServe (arrival 0)]
              (after [CallServeTLS plain_listener; StepServe (arrival 0)] demo_server))
    as (_ & _ & l2 & Hl2 & Hk).
  - exists demo_server, []. run_it.
  - run_it.
  - run_it.
  - run_it.
  - exists l2. split; [exact Hl2 | exact Hk].
Defined.

Lemma wait_group_counts_live_workers_witness :
  exists st',
    step Z.add (WorkerExit 0)
      (after (CallServe plain_listener :: accept_one 7) demo_server) = Some st' /\
    crashed st' = None.
Proof.
  destruct (wait_group_counts_live_workers Z.add
              (after (CallServe plain_listener :: accept_one 7) demo_server)
              0%nat {| w_cli := 0; w_done := false |})
    as (_ & _ & st' & Hs & Hc & _).
  - exists demo_server, (CallServe plain_listener :: accept_one 7). run_it.
  - run_it.
  - run_it.
  - run_it.
  - exists st'. split; [exact Hs | exact Hc].
Defined.

(** * The lifetime properties on the concrete server *)

(** C4 as stated fails: a first call of [Serve] accepts one connection and
    ends on a failed accept; a second call on the same server accepts
    another connection, and both clients have [Numero] 1. *)
Lemma numero_repeats_when_served_again :
  exists st',
    life_run Z.add (first_serving ++ CallServe plain_listener :: accept_one 3)
      (init demo_server) = Some st' /\
    clients st' !! 0%nat = Some {| rwc := 0; br := 0; bw := 0; Numero := 1 |} /\
    clients st' !! 1%nat = Some {| rwc := 1; br := 1; bw := 1; Numero := 1 |} /\
    length (conns st') = 2%nat.
Proof.
  exists (life_after (first_serving ++ CallServe plain_listener :: accept_one 3) demo_server).
  run_all.
Qed.

Lemma numero_counts_within_a_call_witness :
  Numero {| rwc := 1; br := 1; bw := 1; Numero := 1 |} = Z.of_nat 0 + 1 /\
  Numero {| rwc := 2; br := 2; bw := 2; Numero := 2 |} = Z.of_nat 1 + 1.
Proof.
  destruct (numero_counts_within_a_call Z.add
              (life_after first_serving demo_server) plain_listener false
              (life_after (first_serving ++ [CallServe plain_listener]) demo_server)
              (accept_one 3 ++ accept_one 4)
              (life_after (first_serving ++ CallServe plain_listener ::
                           accept_one 3 ++ accept_one 4) demo_server)
              0%nat 1%nat
              {| rwc := 1; br := 1; bw := 1; Numero := 1 |}
              {| rwc := 2; br := 2; bw := 2; Numero := 2 |}
              []
              (life_after (first_serving ++ CallServe plain_listener ::
                           accept_one 3 ++ accept_one 4) demo_server))
    as (_ & H1 & _ & H2 & _).
  - exists demo_server, first_serving. run_it.
  - run_it.
  - run_it.
  - repeat constructor.
  - run_it.
  - run_it.
  - run_it.
  - lia.
  - run_it.
  - split; [exact H1 | exact H2].
Defined.




Lemma configuration_is_kept_witness :
  ReadTimeout
    (srv (life_after
            [CallServe plain_listener; StepServe (arrival 0); StepServe (arrival 0);
             StepServe (arrival 1); StepServe (arrival 1); StepServe (arrival 1);
             StepServe (arrival 2); StepServe (failure (ErrOther "too many open files"));
             CallServe plain_listener] demo_server))
  = ReadTimeout (srv first_accepted).
Proof.
  apply (configuration_is_kept Z.add first_accepted plain_listener
           [StepServe (arrival 1); StepServe (arrival 1); StepServe (arrival 1)]
           (after [CallServe plain_listener; StepServe (arrival 0); StepServe (arrival 0);
                   StepServe (arrival 1); StepServe (arrival 1); StepServe (arrival 1)]
              demo_server)
           [StepServe (arrival 2); StepServe (failure (ErrOther "too many open files"));
            CallServe plain_listener]).
  - run_it.
  - run_it.
  - repeat constructor.
  - run_it.
Defined.

Lemma returned_serve_dispatched_all_witness :
  exists cl w,
    clients (life_after (first_serving ++ CallServe plain_listener :: accept_one 3 ++
                         [CallStop; StepStop 0; StepStop 0; StepServe (arrival 4)])
               demo_server) !! 1%nat = Some cl /\
    rwc cl = 1%nat /\
    workers (life_after (first_serving ++ CallServe plain_listener :: accept_one 3 ++
                         [CallStop; StepStop 0; StepStop 0; StepServe (arrival 4)])
               demo_server) !! 1%nat = Some w /\
    w_cli w = 1%nat.
Proof.
  apply (returned_serve_dispatched_all Z.add
           (life_after (first_serving ++ CallServe plain_listener :: accept_one 3 ++
                        [CallStop; StepStop 0; StepStop 0; StepServe (arrival 4)])
              demo_server) None 1%nat).
  - exists demo_server,
      (first_serving ++ CallServe plain_listener :: accept_one 3 ++
       [CallStop; StepStop 0; StepStop 0; StepServe (arrival 4)]).
    run_it.
  - run_it.
  - run_it.
Defined.
